(** * Issue-history replay and staleness evaluation of the stale-issue agent

    A shallow embedding of [agent.ts] (with the helpers it uses from
    [utils.ts] and [settings.ts]): the timeline builder
    [buildHistoryTimeline], the replayer [replayHistoryToFindState] and the
    tool entry point [getIssueState], followed by the properties the
    specification states about them.

    Conventions of the embedding.
    - A JavaScript [Date] is the integer number of milliseconds since the
      epoch that [getTime()] returns ([Z]); comparing two dates compares
      these integers.  Only valid dates are modelled.
    - A field of type [string | null] (or an optional field) is an
      [option string]; [{login: string} | null] followed by [?.login] is
      the [option string] holding the login.
    - What comes from outside the repository is gathered in [Env]: the
      functions of date-fns and luxon the agent calls, the printing of a
      number, and the settings read from the process environment.
    - A number of days is a rational ([Q]). *)

From Stdlib Require Import ZArith QArith List String Ascii Bool Lia.
From Stdlib Require Import Sorting.Sorted Sorting.Permutation.
Import ListNotations.

Local Open Scope string_scope.
Local Open Scope list_scope.
Local Open Scope Z_scope.

(** * Part I: the program *)

(** ** JavaScript string and array primitives used by the agent *)

Module Js.

(** [s.includes(needle)]: [needle] occurs in [s] as a contiguous run. *)
Fixpoint includes (needle s : string) : bool :=
  String.prefix needle s
  || match s with
     | EmptyString => false
     | String _ s' => includes needle s'
     end.

(** [s.endsWith(suffix)]. *)
Definition endsWith (s suffix : string) : bool :=
  (String.length suffix <=? String.length s)%nat
  && String.eqb
       (String.substring (String.length s - String.length suffix)
                         (String.length suffix) s)
       suffix.

(** Truthiness of a [string | null] value: [null], [undefined] and the
    empty string are falsy, every other string is truthy. *)
Definition truthy (v : option string) : bool :=
  match v with
  | Some s => negb (String.eqb s "")
  | None => false
  end.

(** [xs.includes(x)] on an array of strings. *)
Definition array_includes (xs : list string) (x : string) : bool :=
  existsb (String.eqb x) xs.

(** [v ?? d]. *)
Definition nullish {A : Type} (v : option A) (d : A) : A :=
  match v with
  | Some a => a
  | None => d
  end.

(** [Array.prototype.sort(cmp)]: a stable sort (ECMAScript 2019), here by
    insertion.  [cmp a b <= 0] keeps [a] before [b].  For the comparator
    of the agent every stable sort gives this same result (see
    [stable_sort_unique] below). *)
Section Sort.
Context {A : Type} (cmp : A -> A -> Z).

Fixpoint insert (x : A) (l : list A) : list A :=
  match l with
  | [] => [x]
  | y :: l' => if cmp x y <=? 0 then x :: y :: l' else y :: insert x l'
  end.

Fixpoint sort (l : list A) : list A :=
  match l with
  | [] => []
  | x :: l' => insert x (sort l')
  end.
End Sort.

(** [Math.max(...xs)] for a non-empty argument list [x :: xs]. *)
Definition Math_max (x : Z) (xs : list Z) : Z := fold_left Z.max xs x.

End Js.

(** ** What the agent takes from outside the repository *)

Record Env := mkEnv {
  (** [parseISO] of date-fns, followed by [getTime()]. *)
  parseISO : string -> Z;
  (** [a.diff(DateTime.fromJSDate(b), 'days').days] of luxon, for the
      instants [a] and [b]. *)
  diff_days : Z -> Z -> Q;
  (** The text of a number inside a template literal. *)
  Number_toString : Z -> string;
  (** [settings.ts]: values read from the process environment. *)
  STALE_LABEL_NAME : string;
  STALE_HOURS_THRESHOLD : Q;
  CLOSE_HOURS_AFTER_STALE_THRESHOLD : Q
}.

(** ** Data model ([agent.ts]) *)

Definition BOT_ALERT_SIGNATURE : string :=
  "**Notification:** The author has updated the issue description".
Definition BOT_NAME : string := "adk-bot".

Inductive EventType : Set :=
| created
| commented
| edited_description
| renamed_title
| reopened.

Inductive Role : Set :=
| author
| maintainer
| other_user.

Record HistoryEvent := mkEvent {
  ev_type : EventType;
  ev_actor : option string;
  ev_time : Z;
  ev_data : option string
}.

Record IssueState := mkState {
  last_action_role : Role;
  last_activity_time : Z;
  last_action_type : EventType;
  last_comment_text : option string;
  last_actor_name : option string
}.

Definition EventType_eqb (a b : EventType) : bool :=
  match a, b with
  | created, created
  | commented, commented
  | edited_description, edited_description
  | renamed_title, renamed_title
  | reopened, reopened => true
  | _, _ => false
  end.

Definition Role_eqb (a b : Role) : bool :=
  match a, b with
  | author, author | maintainer, maintainer | other_user, other_user => true
  | _, _ => false
  end.

(** ** History replayer *)

(** The role computed in the loop body of [replayHistoryToFindState]:
    [actor === issueAuthor], else [actor && maintainers.includes(actor)]. *)
Definition role_of (maintainers : list string) (issueAuthor : string)
    (actor : option string) : Role :=
  match actor with
  | Some a =>
      if String.eqb a issueAuthor then author
      else if Js.truthy actor && Js.array_includes maintainers a then maintainer
      else other_user
  | None => other_user
  end.

(** One iteration of the [for (const event of history)] loop. *)
Definition replay_step (maintainers : list string) (issueAuthor : string)
    (st : IssueState) (event : HistoryEvent) : IssueState :=
  let actor := ev_actor event in
  let etype := ev_type event in
  {| last_action_role := role_of maintainers issueAuthor actor;
     last_activity_time := ev_time event;
     last_action_type := etype;
     last_comment_text :=
       if EventType_eqb etype commented then ev_data event else None;
     last_actor_name := actor |}.

Definition replayHistoryToFindState (history : list HistoryEvent)
    (maintainers : list string) (issueAuthor : string) : IssueState :=
  fold_left (replay_step maintainers issueAuthor) history
    {| last_action_role := author;
       last_activity_time :=
         match history with
         | e :: _ => ev_time e
         | [] => 0
         end;
       last_action_type := created;
       last_comment_text := None;
       last_actor_name := Some issueAuthor |}.

(** ** Raw issue data ([IssueGraphQLData], [Issue]) *)

Record CommentNode := mkComment {
  c_author : option string;       (* author?.login *)
  c_body : option string;
  c_createdAt : string;
  c_lastEditedAt : option string
}.

Record EditNode := mkEdit {
  e_editor : option string;       (* editor?.login *)
  e_editedAt : string
}.

Inductive Typename : Set :=
| LabeledEvent
| RenamedTitleEvent
| ReopenedEvent.

Record TimelineItem := mkItem {
  t_typename : Typename;
  t_createdAt : string;
  t_actor : option string;        (* actor?.login *)
  t_label : option string         (* label?.name *)
}.

(** The issue object returned by the GraphQL query.  [labels] is read by
    [getIssueState] only; the other fields are the [IssueGraphQLData] that
    [buildHistoryTimeline] receives.  A connection is [None] when the field
    is missing, and a node is [None] when the feed has a [null] entry. *)
Record IssueGraphQLData := mkIssue {
  d_author : option string;       (* author?.login *)
  d_createdAt : string;
  d_labels : option (list string);             (* labels?.nodes[].name *)
  d_comments : option (list (option CommentNode));
  d_userContentEdits : option (list (option EditNode));
  d_timelineItems : option (list (option TimelineItem))
}.

Definition Typename_eqb (a b : Typename) : bool :=
  match a, b with
  | LabeledEvent, LabeledEvent
  | RenamedTitleEvent, RenamedTitleEvent
  | ReopenedEvent, ReopenedEvent => true
  | _, _ => false
  end.

(** [actor && !actor.endsWith('[bot]') && actor !== BOT_NAME], the guard
    written out before each [history.push] of a user event. *)
Definition human_actor (actor : option string) : bool :=
  match actor with
  | Some a =>
      Js.truthy actor && negb (Js.endsWith a "[bot]")
      && negb (String.eqb a BOT_NAME)
  | None => false
  end.

(** ** Timeline builder *)

Section Builder.

Variable env : Env.

(** [c.lastEditedAt ? parseISO(c.lastEditedAt) : cTime]. *)
Definition actualTime (c : CommentNode) : Z :=
  match c_lastEditedAt c with
  | Some s =>
      if Js.truthy (c_lastEditedAt c) then parseISO env s
      else parseISO env (c_createdAt c)
  | None => parseISO env (c_createdAt c)
  end.

(** Body of the loop over [data.comments?.nodes], on the pair
    [(history, lastBotAlertTime)]. *)
Definition comment_step (acc : list HistoryEvent * option Z)
    (node : option CommentNode) : list HistoryEvent * option Z :=
  let '(history, lastBotAlertTime) := acc in
  match node with
  | None => acc
  | Some c =>
      let actor := c_author c in
      let cBody := Js.nullish (c_body c) "" in
      let cTime := parseISO env (c_createdAt c) in
      if Js.includes BOT_ALERT_SIGNATURE cBody then
        (history,
         match lastBotAlertTime with
         | None => Some cTime
         | Some t => if cTime >? t then Some cTime else lastBotAlertTime
         end)
      else if human_actor actor then
        (history ++ [mkEvent commented actor (actualTime c) (Some cBody)],
         lastBotAlertTime)
      else acc
  end.

(** Body of the loop over [data.userContentEdits?.nodes]. *)
Definition edit_step (history : list HistoryEvent)
    (node : option EditNode) : list HistoryEvent :=
  match node with
  | None => history
  | Some e =>
      let actor := e_editor e in
      if human_actor actor then
        history
          ++ [mkEvent edited_description actor (parseISO env (e_editedAt e))
                None]
      else history
  end.

(** Body of the loop over [data.timelineItems?.nodes], on the pair
    [(history, labelEvents)]. *)
Definition timeline_step (acc : list HistoryEvent * list Z)
    (node : option TimelineItem) : list HistoryEvent * list Z :=
  let '(history, labelEvents) := acc in
  match node with
  | None => acc
  | Some t =>
      let etype := t_typename t in
      let actor := t_actor t in
      let timeVal := parseISO env (t_createdAt t) in
      if Typename_eqb etype LabeledEvent then
        match t_label t with
        | Some name =>
            if String.eqb name (STALE_LABEL_NAME env)
            then (history, labelEvents ++ [timeVal])
            else acc
        | None => acc
        end
      else if human_actor actor then
        let prettyType :=
          if Typename_eqb etype RenamedTitleEvent
          then renamed_title else reopened in
        (history ++ [mkEvent prettyType actor timeVal None], labelEvents)
      else acc
  end.

(** The comparator [(a, b) => a.time.getTime() - b.time.getTime()]. *)
Definition by_time (a b : HistoryEvent) : Z := ev_time a - ev_time b.

(** The baseline event pushed first. *)
Definition created_event (data : IssueGraphQLData) : HistoryEvent :=
  mkEvent created (d_author data) (parseISO env (d_createdAt data)) None.

(** The history as pushed by the four phases, before the final sort. *)
Definition ingest (data : IssueGraphQLData)
  : list HistoryEvent * list Z * option Z :=
  let history := [created_event data] in
  let '(history, lastBotAlertTime) :=
    fold_left comment_step (Js.nullish (d_comments data) [])
      (history, None) in
  let history :=
    fold_left edit_step (Js.nullish (d_userContentEdits data) []) history in
  let '(history, labelEvents) :=
    fold_left timeline_step (Js.nullish (d_timelineItems data) [])
      (history, []) in
  (history, labelEvents, lastBotAlertTime).

Definition buildHistoryTimeline (data : IssueGraphQLData)
  : list HistoryEvent * list Z * option Z :=
  let '(history, labelEvents, lastBotAlertTime) := ingest data in
  (Js.sort by_time history, labelEvents, lastBotAlertTime).

End Builder.

(** ** Staleness evaluation (the arithmetic inside [getIssueState]) *)

(** [errorResponse] of [utils.ts]. *)
Record ErrorResponse := mkError {
  err_status : string;
  err_message : string
}.

Definition errorResponse (errorMessage : string) : ErrorResponse :=
  {| err_status := "error"; err_message := errorMessage |}.

(** The object returned by [getIssueState] on success. *)
Record IssueVerdict := mkVerdict {
  v_status : string;
  v_last_action_role : Role;
  v_last_action_type : EventType;
  v_last_actor_name : option string;
  v_maintainer_alert_needed : bool;
  v_is_stale : bool;
  v_days_since_activity : Q;
  v_days_since_stale_label : Q;
  v_last_comment_text : option string;
  v_current_labels : list string;
  v_stale_threshold_days : Q;
  v_close_threshold_days : Q;
  v_maintainers : list string;
  v_issue_author : string
}.

Section Evaluator.

Variable env : Env.

(** [isStale && labelEvents.length], then the age of the latest label. *)
Definition daysSinceStaleLabel (isStale : bool) (labelEvents : list Z)
    (currentTime : Z) : Q :=
  if isStale && negb (Nat.eqb (List.length labelEvents) 0) then
    match labelEvents with
    | t :: ts => diff_days env currentTime (Js.Math_max t ts)
    | [] => 0%Q
    end
  else 0%Q.

(** The silent-edit alert flag. *)
Definition maintainerAlertNeeded (state : IssueState)
    (lastBotAlertTime : option Z) : bool :=
  if (Role_eqb (last_action_role state) author
      || Role_eqb (last_action_role state) other_user)
     && EventType_eqb (last_action_type state) edited_description
  then
    match lastBotAlertTime with
    | Some t => if t >? last_activity_time state then false else true
    | None => true
    end
  else false.

(** The success object, from the replayed state and the side channels. *)
Definition issue_verdict (maintainers : list string) (issueAuthor : string)
    (labelsList : list string) (state : IssueState) (labelEvents : list Z)
    (lastBotAlertTime : option Z) (currentTime : Z) : IssueVerdict :=
  let daysSinceActivity :=
    diff_days env currentTime (last_activity_time state) in
  let isStale := Js.array_includes labelsList (STALE_LABEL_NAME env) in
  {| v_status := "success";
     v_last_action_role := last_action_role state;
     v_last_action_type := last_action_type state;
     v_last_actor_name := last_actor_name state;
     v_maintainer_alert_needed := maintainerAlertNeeded state lastBotAlertTime;
     v_is_stale := isStale;
     v_days_since_activity := daysSinceActivity;
     v_days_since_stale_label :=
       daysSinceStaleLabel isStale labelEvents currentTime;
     v_last_comment_text := last_comment_text state;
     v_current_labels := labelsList;
     v_stale_threshold_days := (STALE_HOURS_THRESHOLD env / 24)%Q;
     v_close_threshold_days := (CLOSE_HOURS_AFTER_STALE_THRESHOLD env / 24)%Q;
     v_maintainers := maintainers;
     v_issue_author := issueAuthor |}.

End Evaluator.

(** ** The tool entry point: exceptions, the cache and the API counter *)

(** A thrown value, as far as the [catch] clauses inspect it. *)
Inductive Thrown :=
| RequestException (message : string)   (* [e instanceof RequestException] *)
| OtherError (message : string)         (* any other [Error] *)
| NonError (text : string).             (* not an [Error]; [text] is [String(e)] *)

Inductive Outcome (A : Type) :=
| Returned (a : A)
| Threw (e : Thrown).
Arguments Returned {A} a.
Arguments Threw {A} e.

(** The module-level mutable state: [maintainersCache] of [agent.ts] and
    [_apiCallCount] of [utils.ts]. *)
Record ProcState := mkProc {
  maintainersCache : option (list string);
  apiCallCount : Z
}.

(** A computation reads and writes the process state and returns or throws;
    the state survives a throw. *)
Definition M (A : Type) : Type := ProcState -> Outcome A * ProcState.

Definition ret {A} (a : A) : M A := fun st => (Returned a, st).
Definition throw {A} (e : Thrown) : M A := fun st => (Threw e, st).
Definition bind {A B} (m : M A) (k : A -> M B) : M B :=
  fun st =>
    match m st with
    | (Returned a, st') => k a st'
    | (Threw e, st') => (Threw e, st')
    end.
Definition try_catch {A} (m : M A) (handler : Thrown -> M A) : M A :=
  fun st =>
    match m st with
    | (Returned a, st') => (Returned a, st')
    | (Threw e, st') => handler e st'
    end.

Notation "x <- m ;; k" := (bind m (fun x => k))
  (at level 61, m at next level, right associativity).

Record GitHubUser := mkUser { login : string }.

Record Repository := mkRepo { issue : option IssueGraphQLData }.
Record ResponseData := mkData { repository : option Repository }.
Record GraphqlError := mkGErr { message : string }.
Record GraphqlResponse := mkResp {
  resp_data : option ResponseData;
  resp_errors : option (list GraphqlError)
}.

(** What the network and the clock answer during one call of the tool. *)
Record World := mkWorld {
  (** [httpClient.get] on the collaborators URL. *)
  get_collaborators : Thrown + list GitHubUser;
  (** [httpClient.post] of the issue query for an issue number. *)
  post_graphql : Z -> Thrown + GraphqlResponse;
  (** [DateTime.utc()]. *)
  utc_now : Z
}.

(** The state after [_apiCallCount += 1]. *)
Definition count_call (st : ProcState) : ProcState :=
  {| maintainersCache := maintainersCache st;
     apiCallCount := apiCallCount st + 1 |}.

Definition incrementApiCallCount : M unit :=
  fun st => (Returned tt, count_call st).

(** [getRequest] and [postRequest] of [utils.ts]: count the call, return
    the response data or log and rethrow. *)
Definition getRequest {A} (response : Thrown + A) : M A :=
  _ <- incrementApiCallCount ;;
  match response with
  | inr d => ret d
  | inl error => throw error
  end.

Definition postRequest {A} (response : Thrown + A) : M A :=
  _ <- incrementApiCallCount ;;
  match response with
  | inr d => ret d
  | inl error => throw error
  end.

Definition set_maintainersCache (m : list string) : M unit :=
  fun st => (Returned tt, {| maintainersCache := Some m;
                             apiCallCount := apiCallCount st |}).

(** [response?.data?.repository?.issue]. *)
Definition response_issue (response : GraphqlResponse)
  : option IssueGraphQLData :=
  match resp_data response with
  | Some d =>
      match repository d with
      | Some r => issue r
      | None => None
      end
  | None => None
  end.

Section Tool.

Variable env : Env.
Variable w : World.

Definition getCachedMaintainers : M (list string) :=
  fun st =>
    match maintainersCache st with
    | Some cached => (Returned cached, st)
    | None =>
        try_catch
          (data <- getRequest (get_collaborators w) ;;
           _ <- set_maintainersCache (map login data) ;;
           ret (map login data))
          (fun _ =>
             throw (OtherError
                      "Maintainer verification failed. Processing aborted."))
          st
    end.

Definition fetchGraphqlData (item_number : Z) : M IssueGraphQLData :=
  response <- postRequest (post_graphql w item_number) ;;
  match resp_errors response with
  | Some (first :: _) =>
      throw (RequestException ("GraphQL Error: " ++ message first)%string)
  | _ =>
      match response_issue response with
      | Some found => ret found
      | None =>
          throw (RequestException
                   ("Issue #" ++ Number_toString env item_number
                    ++ " not found.")%string)
      end
  end.

(** The [try] block of [getIssueState]. *)
Definition getIssueState_try (item_number : Z)
  : M (IssueVerdict + ErrorResponse) :=
  maintainers <- getCachedMaintainers ;;
  rawData <- fetchGraphqlData item_number ;;
  let issueAuthor := Js.nullish (d_author rawData) "unknown" in
  let labelsList := Js.nullish (d_labels rawData) [] in
  let '(history, labelEvents, lastBotAlertTime) :=
    buildHistoryTimeline env rawData in
  let state := replayHistoryToFindState history maintainers issueAuthor in
  let currentTime := utc_now w in
  ret (inl (issue_verdict env maintainers issueAuthor labelsList state
              labelEvents lastBotAlertTime currentTime)).

(** The [catch] clause of [getIssueState]. *)
Definition getIssueState_catch (e : Thrown)
  : M (IssueVerdict + ErrorResponse) :=
  match e with
  | RequestException msg =>
      ret (inr (errorResponse ("Network Error: " ++ msg)%string))
  | OtherError msg =>
      ret (inr (errorResponse ("Analysis Error: " ++ msg)%string))
  | NonError text =>
      ret (inr (errorResponse ("Analysis Error: " ++ text)%string))
  end.

Definition getIssueState (item_number : Z)
  : M (IssueVerdict + ErrorResponse) :=
  try_catch (getIssueState_try item_number) getIssueState_catch.

End Tool.

(** * Part II: vocabulary of the properties *)

(** A timeline is chronological when no event is earlier than the one
    before it. *)
Definition time_le (a b : HistoryEvent) : Prop := ev_time a <= ev_time b.
Definition chronological (history : list HistoryEvent) : Prop :=
  Sorted time_le history.

(** The events of a list that happened at instant [t]. *)
Definition at_time (t : Z) (e : HistoryEvent) : bool := ev_time e =? t.

(** A non-empty login that is neither a bot's nor the agent's own. *)
Definition user_actor (actor : option string) : Prop :=
  exists a, actor = Some a /\ a <> "" /\ Js.endsWith a "[bot]" = false
            /\ a <> BOT_NAME.

(** The comment bears the alert signature. *)
Definition is_alert_comment (c : CommentNode) : bool :=
  Js.includes BOT_ALERT_SIGNATURE (Js.nullish (c_body c) "").

Section Contributions.

Variable env : Env.

Definition built_history (data : IssueGraphQLData) : list HistoryEvent :=
  fst (fst (buildHistoryTimeline env data)).
Definition built_labelEvents (data : IssueGraphQLData) : list Z :=
  snd (fst (buildHistoryTimeline env data)).
Definition built_lastBotAlertTime (data : IssueGraphQLData) : option Z :=
  snd (buildHistoryTimeline env data).

(** What one raw node contributes to the history. *)
Definition comment_events (node : option CommentNode) : list HistoryEvent :=
  match node with
  | Some c =>
      if is_alert_comment c then []
      else if human_actor (c_author c) then
        [mkEvent commented (c_author c) (actualTime env c)
           (Some (Js.nullish (c_body c) ""))]
      else []
  | None => []
  end.

Definition edit_events (node : option EditNode) : list HistoryEvent :=
  match node with
  | Some e =>
      if human_actor (e_editor e) then
        [mkEvent edited_description (e_editor e)
           (parseISO env (e_editedAt e)) None]
      else []
  | None => []
  end.

Definition item_events (node : option TimelineItem) : list HistoryEvent :=
  match node with
  | Some t =>
      match t_typename t with
      | LabeledEvent => []
      | RenamedTitleEvent =>
          if human_actor (t_actor t) then
            [mkEvent renamed_title (t_actor t)
               (parseISO env (t_createdAt t)) None]
          else []
      | ReopenedEvent =>
          if human_actor (t_actor t) then
            [mkEvent reopened (t_actor t) (parseISO env (t_createdAt t)) None]
          else []
      end
  | None => []
  end.

(** Creation instants of the comments that bear the alert signature. *)
Definition alert_times (nodes : list (option CommentNode)) : list Z :=
  flat_map
    (fun node =>
       match node with
       | Some c =>
           if is_alert_comment c then [parseISO env (c_createdAt c)] else []
       | None => []
       end)
    nodes.

(** Instants at which the stale label was applied. *)
Definition stale_label_times (node : option TimelineItem) : list Z :=
  match node with
  | Some t =>
      match t_typename t, t_label t with
      | LabeledEvent, Some name =>
          if String.eqb name (STALE_LABEL_NAME env)
          then [parseISO env (t_createdAt t)] else []
      | _, _ => []
      end
  | None => []
  end.

(** Everything pushed after the [created] event: comments, then edits,
    then timeline items. *)
Definition pushed_after_created (data : IssueGraphQLData)
  : list HistoryEvent :=
  flat_map comment_events (Js.nullish (d_comments data) [])
  ++ flat_map edit_events (Js.nullish (d_userContentEdits data) [])
  ++ flat_map item_events (Js.nullish (d_timelineItems data) []).

(** The events in the order the four phases push them. *)
Definition pushed (data : IssueGraphQLData) : list HistoryEvent :=
  created_event env data :: pushed_after_created data.

End Contributions.

(** The most recent of a list of instants. *)
Definition latest (ts : list Z) : option Z :=
  match ts with
  | [] => None
  | t :: ts' => Some (Js.Math_max t ts')
  end.

(** The raw data with every signature-bearing comment taken out. *)
Definition keep_comment (node : option CommentNode) : bool :=
  match node with
  | Some c => negb (is_alert_comment c)
  | None => true
  end.

Definition without_alert_comments (data : IssueGraphQLData)
  : IssueGraphQLData :=
  {| d_author := d_author data;
     d_createdAt := d_createdAt data;
     d_labels := d_labels data;
     d_comments := option_map (filter keep_comment) (d_comments data);
     d_userContentEdits := d_userContentEdits data;
     d_timelineItems := d_timelineItems data |}.

(** The message the [catch] clause of [getIssueState] builds. *)
Definition catch_message (e : Thrown) : string :=
  match e with
  | RequestException msg => ("Network Error: " ++ msg)%string
  | OtherError msg => ("Analysis Error: " ++ msg)%string
  | NonError text => ("Analysis Error: " ++ text)%string
  end.

Definition maintainer_failure : string :=
  "Maintainer verification failed. Processing aborted.".

(** ** A concrete environment and concrete issues, for the examples *)

Module Sample.

Definition digit (c : ascii) : Z := Z.of_nat (nat_of_ascii c) - 48.

Fixpoint digits (s : string) (acc : Z) : Z :=
  match s with
  | EmptyString => acc
  | String c s' => digits s' (10 * acc + digit c)
  end.

Definition field (start len : nat) (s : string) : Z :=
  digits (String.substring start len s) 0.

(** Days from 1970-01-01 to the given civil date. *)
Definition days_from_civil (y m d : Z) : Z :=
  let y' := if m <=? 2 then y - 1 else y in
  let era := y' / 400 in
  let yoe := y' - era * 400 in
  let mp := if m >? 2 then m - 3 else m + 9 in
  let doy := (153 * mp + 2) / 5 + d - 1 in
  let doe := yoe * 365 + yoe / 4 - yoe / 100 + doy in
  era * 146097 + doe - 719468.

(** Epoch milliseconds of a stamp written [YYYY-MM-DDTHH:MM:SSZ], the form
    in which GitHub sends its instants. *)
Definition parse_utc (s : string) : Z :=
  let days := days_from_civil (field 0 4 s) (field 5 2 s) (field 8 2 s) in
  (((days * 24 + field 11 2 s) * 60 + field 14 2 s) * 60 + field 17 2 s)
  * 1000.

(** Decimal text of a natural number below one hundred thousand. *)
Definition digit_char (n : Z) : ascii := ascii_of_nat (Z.to_nat (n + 48)).

Fixpoint decimal (fuel : nat) (n : Z) (acc : string) : string :=
  match fuel with
  | O => acc
  | S fuel' =>
      let acc' := String (digit_char (n mod 10)) acc in
      if n / 10 =? 0 then acc' else decimal fuel' (n / 10) acc'
  end.

Definition env : Env :=
  {| parseISO := parse_utc;
     diff_days := fun a b => Qmake (a - b) 86400000;
     Number_toString := fun n => decimal 20 n "";
     STALE_LABEL_NAME := "stale";
     STALE_HOURS_THRESHOLD := 168%Q;
     CLOSE_HOURS_AFTER_STALE_THRESHOLD := 168%Q |}.

(** Alice opens an issue; Bob, a maintainer, asks for details and later
    edits his comment; the agent has posted one alert; Alice then edits
    the description. *)
Definition bob_comment : CommentNode :=
  mkComment (Some "bob") (Some "Could you share the logs?")
    "2024-01-02T00:00:00Z" (Some "2024-01-03T00:00:00Z").

Definition bot_alert : CommentNode :=
  mkComment (Some "adk-bot")
    (Some "**Notification:** The author has updated the issue description. Maintainers, please review.")
    "2024-01-04T00:00:00Z" None.

Definition alice_issue : IssueGraphQLData :=
  {| d_author := Some "alice";
     d_createdAt := "2024-01-01T00:00:00Z";
     d_labels := Some ["bug"; "stale"];
     d_comments := Some [Some bob_comment; None; Some bot_alert];
     d_userContentEdits :=
       Some [Some (mkEdit (Some "alice") "2024-01-05T00:00:00Z");
             Some (mkEdit (Some "github-actions[bot]") "2024-01-06T00:00:00Z")];
     d_timelineItems :=
       Some [Some (mkItem LabeledEvent "2024-01-02T12:00:00Z" (Some "adk-bot")
                     (Some "stale"));
             Some (mkItem RenamedTitleEvent "2024-01-03T00:00:00Z"
                     (Some "carol") None)] |}.

(** A comment whose author has an empty login. *)
Definition nameless_comment : CommentNode :=
  mkComment (Some "") (Some "hello") "2024-01-02T00:00:00Z" None.

Definition nameless_issue : IssueGraphQLData :=
  {| d_author := Some "alice";
     d_createdAt := "2024-01-01T00:00:00Z";
     d_labels := None;
     d_comments := Some [Some nameless_comment];
     d_userContentEdits := None;
     d_timelineItems := None |}.

(** The network when the collaborators request fails. *)
Definition offline : World :=
  {| get_collaborators := inl (OtherError "Request failed with status code 503");
     post_graphql :=
       fun _ => inr (mkResp (Some (mkData (Some (mkRepo (Some alice_issue)))))
                       None);
     utc_now := parse_utc "2024-01-13T00:00:00Z" |}.

(** The network when every request succeeds. *)
Definition online : World :=
  {| get_collaborators := inr [mkUser "bob"; mkUser "carol"];
     post_graphql :=
       fun n =>
         if n =? 7 then
           inr (mkResp (Some (mkData (Some (mkRepo (Some alice_issue))))) None)
         else inr (mkResp (Some (mkData (Some (mkRepo None)))) None);
     utc_now := parse_utc "2024-01-13T00:00:00Z" |}.

Definition fresh : ProcState :=
  {| maintainersCache := None; apiCallCount := 0 |}.

End Sample.

(** * Part II-b: the rest of the agent, the driver and the workflows *)

(** ** More JavaScript primitives *)

Module JsMore.

(** [xs.slice(start, end)] for integer arguments: a negative index counts
    from the end, and both are clamped to the array. *)
Definition slice {A : Type} (xs : list A) (start stop : Z) : list A :=
  let len := Z.of_nat (List.length xs) in
  let k := if start <? 0 then Z.max (len + start) 0 else Z.min start len in
  let final := if stop <? 0 then Z.max (len + stop) 0 else Z.min stop len in
  firstn (Z.to_nat (Z.max (final - k) 0)) (skipn (Z.to_nat k) xs).

(** [xs[i]] for an integer [i]: [undefined] outside the array. *)
Definition index {A : Type} (xs : list A) (i : Z) : option A :=
  if i <? 0 then None else nth_error xs (Z.to_nat i).

(** [\w] without the unicode flag. *)
Definition is_word (c : ascii) : bool :=
  let n := nat_of_ascii c in
  ((48 <=? n) && (n <=? 57) || (65 <=? n) && (n <=? 90)
   || (97 <=? n) && (n <=? 122) || (n =? 95))%nat.

End JsMore.

(** ** Input the builder ignores *)

(** The raw data without its [null] nodes and without the comments, edits
    and timeline items of bots, of the agent itself and of absent actors
    (label events apart, which are kept whoever applied the label). *)
Definition by_user_comment (node : option CommentNode) : bool :=
  match node with
  | Some c => human_actor (c_author c)
  | None => false
  end.

Definition by_user_edit (node : option EditNode) : bool :=
  match node with
  | Some e => human_actor (e_editor e)
  | None => false
  end.

Definition by_user_item (node : option TimelineItem) : bool :=
  match node with
  | Some t => Typename_eqb (t_typename t) LabeledEvent || human_actor (t_actor t)
  | None => false
  end.

Definition without_automation (data : IssueGraphQLData) : IssueGraphQLData :=
  {| d_author := d_author data;
     d_createdAt := d_createdAt data;
     d_labels := d_labels data;
     d_comments := option_map (filter by_user_comment) (d_comments data);
     d_userContentEdits :=
       option_map (filter by_user_edit) (d_userContentEdits data);
     d_timelineItems :=
       option_map (filter by_user_item) (d_timelineItems data) |}.

(** The latest instant of a non-empty list of events. *)
Definition latest_time (first : HistoryEvent) (others : list HistoryEvent)
  : Z :=
  Js.Math_max (ev_time first) (map ev_time others).

(** ** The side-effecting tools of [agent.ts] *)

Definition GITHUB_BASE_URL : string := "https://api.github.com".

Inductive Method : Set := GET | POST | PATCH | DELETE.

(** The payloads the tools send. *)
Inductive Body :=
| NoBody
| CommentBody (body : string)        (* [{body: comment}] *)
| LabelNames (names : list string)   (* [[label_name]] *)
| StateClosed.                       (* [{state: 'closed'}] *)

Record Request := mkRequest {
  rq_method : Method;
  rq_url : string;
  rq_body : Body
}.

Record HttpResponse := mkHttp {
  http_status : Z;
  http_data : string
}.

(** The answer of [httpClient] (retries included) to a request, given the
    requests sent before it. *)
Definition Server : Type := list Request -> Request -> Thrown + HttpResponse.

(** Process state together with the requests sent so far. *)
Record NetState := mkNet {
  net_proc : ProcState;
  net_sent : list Request
}.

Definition Net (A : Type) : Type := NetState -> Outcome A * NetState.

Definition net_ret {A} (a : A) : Net A := fun ns => (Returned a, ns).
Definition net_bind {A B} (m : Net A) (k : A -> Net B) : Net B :=
  fun ns =>
    match m ns with
    | (Returned a, ns') => k a ns'
    | (Threw e, ns') => (Threw e, ns')
    end.
Definition net_try {A} (m : Net A) (handler : Thrown -> Net A) : Net A :=
  fun ns =>
    match m ns with
    | (Returned a, ns') => (Returned a, ns')
    | (Threw e, ns') => handler e ns'
    end.

Notation "x <<- m ;; k" := (net_bind m (fun x => k))
  (at level 61, m at next level, right associativity).

(** [response.data] of an answer. *)
Definition data_of (answer : Thrown + HttpResponse) : Thrown + string :=
  match answer with
  | inr r => inr (http_data r)
  | inl e => inl e
  end.

(** [patchRequest] of [utils.ts]. *)
Definition patchRequest {A} (response : Thrown + A) : M A :=
  _ <- incrementApiCallCount ;;
  match response with
  | inr d => ret d
  | inl error => throw error
  end.

(** What [deleteRequest] returns: its own success object on status 204,
    the response data otherwise. *)
Inductive DeleteResult :=
| Deleted (status message : string)
| DeleteData (data : string).

Definition deleteRequest (response : Thrown + HttpResponse) : M DeleteResult :=
  _ <- incrementApiCallCount ;;
  match response with
  | inr r =>
      if http_status r =? 204
      then ret (Deleted "success" "Deletion successful.")
      else ret (DeleteData (http_data r))
  | inl error => throw error
  end.

(** A request helper of [utils.ts] run against the server: the request is
    recorded, the helper counts the call and returns or rethrows. *)
Definition call {A} (server : Server)
    (helper : (Thrown + HttpResponse) -> M A) (r : Request) : Net A :=
  fun ns =>
    let '(outcome, proc) := helper (server (net_sent ns) r) (net_proc ns) in
    (outcome, {| net_proc := proc; net_sent := net_sent ns ++ [r] |}).

Record SuccessResponse := mkSuccess { ok_status : string }.

Definition ToolReply : Type := SuccessResponse + ErrorResponse.

Definition success : ToolReply := inl {| ok_status := "success" |}.

(** [e instanceof Error ? e.message : String(e)]. *)
Definition message_of (e : Thrown) : string :=
  match e with
  | RequestException msg => msg
  | OtherError msg => msg
  | NonError text => text
  end.

(** The server answered the request (no exception). *)
Definition accepted {A} (answer : Thrown + A) : bool :=
  match answer with
  | inr _ => true
  | inl _ => false
  end.

Section Tools.

Variable env : Env.
(** [OWNER] and [REPO] of [settings.ts]. *)
Variables OWNER REPO : string.
(** [formatDays] of [agent.ts]: floating-point division and [toFixed]. *)
Variable formatDays : Q -> string.
(** [String(error)], as [`${error}`] computes it. *)
Variable String_of : Thrown -> string.
Variable server : Server.

Definition issue_url (item_number : Z) : string :=
  (GITHUB_BASE_URL ++ "/repos/" ++ OWNER ++ "/" ++ REPO ++ "/issues/"
   ++ Number_toString env item_number)%string.

Definition comments_url (item_number : Z) : string :=
  (issue_url item_number ++ "/comments")%string.

Definition labels_url (item_number : Z) : string :=
  (issue_url item_number ++ "/labels")%string.

Definition post_comment (item_number : Z) (comment : string) : Net string :=
  call server (fun a => postRequest (data_of a))
    (mkRequest POST (comments_url item_number) (CommentBody comment)).

(** The comment of [closeAsStale]. *)
Definition closing_comment : string :=
  let days_str := formatDays (CLOSE_HOURS_AFTER_STALE_THRESHOLD env) in
  ("This has been automatically closed because it has been marked as stale for over "
   ++ days_str ++ " days.")%string.

Definition closeAsStale (item_number : Z) : Net ToolReply :=
  let comment := closing_comment in
  net_try
    (_ <<- post_comment item_number comment ;;
     _ <<- call server (fun a => patchRequest (data_of a))
             (mkRequest PATCH (issue_url item_number) StateClosed) ;;
     net_ret success)
    (fun error =>
       net_ret (inr (errorResponse
                       ("Error closing issue: " ++ String_of error)%string))).

Definition alert_comment : string :=
  (BOT_ALERT_SIGNATURE ++ ". Maintainers, please review.")%string.

Definition alertMaintainerOfEdit (item_number : Z) : Net ToolReply :=
  let comment := alert_comment in
  net_try
    (_ <<- post_comment item_number comment ;;
     net_ret success)
    (fun e =>
       net_ret (inr (errorResponse
                       ("Error posting alert: " ++ message_of e)%string))).

(** The comment of [addStaleLabelAndComment]. *)
Definition stale_comment : string :=
  let stale_days_str := formatDays (STALE_HOURS_THRESHOLD env) in
  let close_days_str := formatDays (CLOSE_HOURS_AFTER_STALE_THRESHOLD env) in
  ("This issue has been automatically marked as stale because it has not had recent activity for "
   ++ stale_days_str
   ++ " days after a maintainer requested clarification. It will be closed if no further activity occurs within "
   ++ close_days_str ++ " days.")%string.

Definition addStaleLabelAndComment (item_number : Z) : Net ToolReply :=
  let comment := stale_comment in
  net_try
    (_ <<- post_comment item_number comment ;;
     _ <<- call server (fun a => postRequest (data_of a))
             (mkRequest POST (labels_url item_number)
                (LabelNames [STALE_LABEL_NAME env])) ;;
     net_ret success)
    (fun e =>
       net_ret (inr (errorResponse
                       ("Error marking issue as stale: " ++ message_of e)%string))).

Definition addLabelToIssue (item_number : Z) (label_name : string)
  : Net ToolReply :=
  let url := labels_url item_number in
  net_try
    (_ <<- call server (fun a => postRequest (data_of a))
             (mkRequest POST url (LabelNames [label_name])) ;;
     net_ret success)
    (fun e =>
       net_ret (inr (errorResponse
                       ("Error adding label: " ++ message_of e)%string))).

Definition removeLabelFromIssue (item_number : Z) (label_name : string)
  : Net ToolReply :=
  let url := (labels_url item_number ++ "/" ++ label_name)%string in
  net_try
    (_ <<- call server deleteRequest (mkRequest DELETE url NoBody) ;;
     net_ret success)
    (fun error =>
       net_ret (inr (errorResponse
                       ("Error removing label: " ++ String_of error)%string))).

End Tools.

(** A tool run returns, only adds requests to the log, counts each of them
    and leaves the maintainer cache alone. *)
Definition tool_keeps_count (run : Net ToolReply) : Prop :=
  forall ns,
    exists reply ns' added,
      run ns = (Returned reply, ns')
      /\ net_sent ns' = net_sent ns ++ added
      /\ apiCallCount (net_proc ns')
         = apiCallCount (net_proc ns) + Z.of_nat (List.length added)
      /\ maintainersCache (net_proc ns') = maintainersCache (net_proc ns).

(** ** Prompt templating ([formatPrompt] of [agent.ts]) *)

(** The longest run of word characters at the head of a string, and what
    follows it. *)
Fixpoint take_word (s : string) : string * string :=
  match s with
  | EmptyString => (EmptyString, EmptyString)
  | String c s' =>
      if JsMore.is_word c then
        let '(word, rest) := take_word s' in (String c word, rest)
      else (EmptyString, s)
  end.

(** A match of [/\{(\w+)\}/] at the head of [s]: the key, and the text
    after the closing brace. *)
Definition match_placeholder (s : string) : option (string * string) :=
  match s with
  | String "{"%char s1 =>
      match take_word s1 with
      | (String c key, String "}"%char rest) => Some (String c key, rest)
      | _ => None
      end
  | _ => None
  end.

(** Every character of the string is a word character. *)
Fixpoint all_word (s : string) : bool :=
  match s with
  | EmptyString => true
  | String c s' => JsMore.is_word c && all_word s'
  end.

Section FormatPrompt.

(** [vars[key]] as a string, when the object has the property. *)
Variable vars : string -> option string.

(** [String(vars[key] ?? `{${key}}`)]. *)
Definition replacement (key : string) : string :=
  match vars key with
  | Some v => v
  | None => ("{" ++ key ++ "}")%string
  end.

(** [template.replace(/\{(\w+)\}/g, ...)]: the matches are found from left
    to right, each search starting after the previous match; the text
    between them is copied.  [fuel] bounds the characters still to scan. *)
Fixpoint replace_placeholders (fuel : nat) (s : string) : string :=
  match fuel with
  | O => s
  | S fuel' =>
      match s with
      | EmptyString => EmptyString
      | String c s' =>
          match match_placeholder s with
          | Some (key, rest) =>
              (replacement key ++ replace_placeholders fuel' rest)%string
          | None => String c (replace_placeholders fuel' s')
          end
      end
  end.

Definition formatPrompt (template : string) : string :=
  replace_placeholders (String.length template) template.

End FormatPrompt.

(** ** Listing the old open issues ([getOldOpenIssueNumbers] of [utils.ts]) *)

Record GitHubIssueItem := mkFound {
  gi_number : Z;
  gi_pull_request : bool          (* ['pull_request' in item] *)
}.

Record GitHubSearchIssuesResponse := mkSearch {
  total_count : Z;
  items : option (list GitHubIssueItem)
}.

(** The issue numbers a page adds: pull requests are left out. *)
Definition page_numbers (found : list GitHubIssueItem) : list Z :=
  map gi_number (filter (fun item => negb (gi_pull_request item)) found).

Section Search.

(** [httpClient.get] on the search URL with the query of this run, for a
    page number. *)
Variable search : Z -> Thrown + GitHubSearchIssuesResponse.

(** The [while (true)] loop, from the state [(page, issueNumbers)].
    [None] when [fuel] iterations did not reach a [break]. *)
Fixpoint search_loop (fuel : nat) (page : Z) (issueNumbers : list Z)
    (st : ProcState) : option (list Z * ProcState) :=
  match fuel with
  | O => None
  | S fuel' =>
      match getRequest (search page) st with
      | (Threw _, st') => Some (issueNumbers, st')
      | (Returned data, st') =>
          let found := Js.nullish (items data) [] in
          if (List.length found =? 0)%nat then Some (issueNumbers, st')
          else
            let issueNumbers' := issueNumbers ++ page_numbers found in
            if (List.length found <? 100)%nat then Some (issueNumbers', st')
            else search_loop fuel' (page + 1) issueNumbers' st'
      end
  end.

(** The function once its query is built: pages are read from page 1. *)
Definition getOldOpenIssueNumbers (fuel : nat) (st : ProcState)
  : option (list Z * ProcState) :=
  search_loop fuel 1 [] st.

End Search.

(** ** The batches of the driver ([main] of [main.ts]) *)

(** What the loop of [main] does, in order: analyse a chunk of issues
    (concurrently, through the agent), or sleep between two chunks. *)
Inductive Step :=
| Analyse (chunk : list Z)
| Sleep.

(** The [for (let i = 0; i < totalCount; i += CONCURRENCY_LIMIT)] loop,
    from the state [(i, processedCount)], with the steps taken so far.
    [None] when [fuel] iterations did not end the loop. *)
Fixpoint main_loop (fuel : nat) (CONCURRENCY_LIMIT : Z) (allIssues : list Z)
    (i processedCount : Z) (steps : list Step) : option (list Step * Z) :=
  let totalCount := Z.of_nat (List.length allIssues) in
  match fuel with
  | O => None
  | S fuel' =>
      if i <? totalCount then
        let chunk := JsMore.slice allIssues i (i + CONCURRENCY_LIMIT) in
        let steps := steps ++ [Analyse chunk] in
        let processedCount := processedCount + Z.of_nat (List.length chunk) in
        let steps :=
          if i + CONCURRENCY_LIMIT <? totalCount then steps ++ [Sleep]
          else steps in
        main_loop fuel' CONCURRENCY_LIMIT allIssues (i + CONCURRENCY_LIMIT)
          processedCount steps
      else Some (steps, processedCount)
  end.

(** [main] after the issue list is fetched: nothing to do for an empty
    list, the loop otherwise. *)
Definition main_batches (fuel : nat) (CONCURRENCY_LIMIT : Z)
    (allIssues : list Z) : option (list Step * Z) :=
  if (List.length allIssues =? 0)%nat then Some ([], 0)
  else main_loop fuel CONCURRENCY_LIMIT allIssues 0 0 [].

(** The chunks analysed and the number of sleeps of a run. *)
Fixpoint chunks_of (steps : list Step) : list (list Z) :=
  match steps with
  | [] => []
  | Analyse chunk :: steps' => chunk :: chunks_of steps'
  | Sleep :: steps' => chunks_of steps'
  end.

Fixpoint sleeps_of (steps : list Step) : nat :=
  match steps with
  | [] => O
  | Analyse _ :: steps' => sleeps_of steps'
  | Sleep :: steps' => S (sleeps_of steps')
  end.

(** The steps for a list of chunks: a sleep after every chunk but the
    last. *)
Fixpoint with_sleeps (chunks : list (list Z)) : list Step :=
  match chunks with
  | [] => []
  | [chunk] => [Analyse chunk]
  | chunk :: chunks' => Analyse chunk :: Sleep :: with_sleeps chunks'
  end.

(** ** The assignment workflow ([auto-assignment.js], both copies) *)

(** [context.payload]: the number of the issue or of the pull request
    that triggered the workflow, when present. *)
Record EventPayload := mkPayload {
  payload_issue : option Z;
  payload_pull_request : option Z
}.

(** What the workflow does: return early, or call
    [github.rest.issues.addAssignees]; an [undefined] assignee is [None]. *)
Inductive Assignment :=
| NotIssueOrPR
| NoAssignees
| addAssignees (issue_number : Z) (assignees : list (option string)).

(** From the emptiness test to the API call. *)
Definition assign (assigneesList : list string) (issueNumber : Z)
  : Assignment :=
  if (List.length assigneesList =? 0)%nat then NoAssignees
  else
    let noOfAssignees := Z.of_nat (List.length assigneesList) in
    let selection := Z.rem issueNumber noOfAssignees in
    let assigneeForIssue := JsMore.index assigneesList selection in
    addAssignees issueNumber [assigneeForIssue].

(** The workflow for the assignee lists written in the file. *)
Definition auto_assignment (issueAssigneesList prAssigneesList : list string)
    (payload : EventPayload) : Assignment :=
  match payload_issue payload with
  | Some issueNumber => assign issueAssigneesList issueNumber
  | None =>
      match payload_pull_request payload with
      | Some issueNumber => assign prAssigneesList issueNumber
      | None => NotIssueOrPR
      end
  end.

(** The lists of the repository. *)
Definition issueAssigneesList : list string := ["Varun-S10"].
Definition prAssigneesList : list string := ["Varun-S10"].

(** ** More concrete inputs, for the examples *)

Module Cases.

(** An issue whose author's account is gone and that nobody touched. *)
Definition ghost_issue : IssueGraphQLData :=
  {| d_author := None;
     d_createdAt := "2024-01-01T00:00:00Z";
     d_labels := Some [];
     d_comments := Some [None];
     d_userContentEdits := Some [];
     d_timelineItems :=
       Some [Some (mkItem LabeledEvent "2024-01-02T00:00:00Z" (Some "adk-bot")
                     (Some "bug"))] |}.

(** A server that accepts every request. *)
Definition accepting : Server := fun _ _ => inr (mkHttp 201 "{}").

(** A server that accepts comments and refuses everything else. *)
Definition comments_only : Server :=
  fun _ r =>
    match rq_body r with
    | CommentBody _ => inr (mkHttp 201 "{}")
    | _ => inl (OtherError "Request failed with status code 403")
    end.

Definition idle : NetState :=
  {| net_proc := Sample.fresh; net_sent := [] |}.

Definition String_of (e : Thrown) : string :=
  match e with
  | RequestException msg => ("RequestException: " ++ msg)%string
  | OtherError msg => ("Error: " ++ msg)%string
  | NonError text => text
  end.

Definition formatDays (hours : Q) : string := "7".

(** A search with one page: two issues and a pull request. *)
Definition one_page (page : Z) : Thrown + GitHubSearchIssuesResponse :=
  if page =? 1 then
    inr (mkSearch 3 (Some [mkFound 5 false; mkFound 6 true; mkFound 7 false]))
  else inr (mkSearch 3 (Some [])).

(** A search with a full page, then a page that fails. *)
Definition hundred : list GitHubIssueItem :=
  map (fun n => mkFound (Z.of_nat n) (Nat.even n)) (seq 1 100).

Definition page_then_failure (page : Z)
  : Thrown + GitHubSearchIssuesResponse :=
  if page =? 1 then inr (mkSearch 150 (Some hundred))
  else inl (OtherError "Request failed with status code 422").

(** A search that always has a full page more. *)
Definition endless (page : Z) : Thrown + GitHubSearchIssuesResponse :=
  inr (mkSearch 100000 (Some hundred)).

Definition prompt_vars (key : string) : option string :=
  if String.eqb key "OWNER" then Some "acme"
  else if String.eqb key "REPO" then Some "{OWNER}-tools"
  else None.

End Cases.

(** * Part III: properties *)

(** ** Facts about the JavaScript primitives *)

Module JsFacts.

Lemma array_includes_In xs x : Js.array_includes xs x = true <-> In x xs.
Proof.
  unfold Js.array_includes. rewrite existsb_exists. split.
  - intros [y [Hy Heq]]. apply String.eqb_eq in Heq. now subst.
  - intros H. exists x. split; [assumption | apply String.eqb_refl].
Qed.

Lemma truthy_Some s : Js.truthy (Some s) = true <-> s <> "".
Proof.
  simpl. rewrite negb_true_iff. split.
  - intros H ->. discriminate.
  - intros H. apply String.eqb_neq. exact H.
Qed.

(** [includes] is containment as a contiguous run. *)
Lemma prefix_iff p : forall s,
  String.prefix p s = true <-> exists rest, s = (p ++ rest)%string.
Proof.
  induction p as [| a p IH]; intros s.
  - destruct s; simpl; (split; [intros _; eexists; reflexivity | reflexivity]).
  - destruct s as [| b s]; simpl.
    + split; [discriminate | intros [rest H]; discriminate].
    + destruct (ascii_dec a b) as [-> | Hne].
      * rewrite IH. split; intros [rest H]; exists rest; congruence.
      * split; [discriminate | intros [rest H]; congruence].
Qed.

Lemma includes_unfold needle s :
  Js.includes needle s
  = String.prefix needle s
    || match s with
       | EmptyString => false
       | String _ s' => Js.includes needle s'
       end.
Proof. destruct s; reflexivity. Qed.

Lemma includes_iff needle : forall s,
  Js.includes needle s = true
  <-> exists front back, s = (front ++ needle ++ back)%string.
Proof.
  induction s as [| c s IH]; rewrite includes_unfold, orb_true_iff, prefix_iff.
  - split.
    + intros [[rest H] | H]; [| discriminate]. exists "", rest. exact H.
    + intros [front [back H]]. left.
      destruct front; simpl in H; [eauto | discriminate].
  - rewrite IH. split.
    + intros [[rest H] | [front [back H]]].
      * exists "", rest. exact H.
      * exists (String c front), back. simpl. congruence.
    + intros [front [back H]]. destruct front as [| c' front]; simpl in H.
      * left. eauto.
      * right. exists front, back. congruence.
Qed.

(** [endsWith] is being a suffix. *)
Lemma substring_whole s : String.substring 0 (String.length s) s = s.
Proof. induction s as [| c s IH]; simpl; congruence. Qed.

Lemma substring_skip a : forall s m,
  String.substring (String.length a) m (a ++ s) = String.substring 0 m s.
Proof.
  induction a as [| c a IH]; intros s m; simpl; [reflexivity | apply IH].
Qed.

Lemma length_app a : forall s,
  String.length (a ++ s) = (String.length a + String.length s)%nat.
Proof.
  induction a as [| c a IH]; intros s; simpl; [reflexivity | now rewrite IH].
Qed.

Lemma split_at s : forall n, (n <= String.length s)%nat ->
  s = (String.substring 0 n s
       ++ String.substring n (String.length s - n) s)%string.
Proof.
  induction s as [| c s IH]; intros n Hn; simpl in *.
  - destruct n; [reflexivity | lia].
  - destruct n as [| n]; simpl.
    + rewrite substring_whole. reflexivity.
    + f_equal. apply IH. lia.
Qed.

Lemma endsWith_iff s suffix :
  Js.endsWith s suffix = true <-> exists front, s = (front ++ suffix)%string.
Proof.
  unfold Js.endsWith. rewrite andb_true_iff, Nat.leb_le, String.eqb_eq. split.
  - intros [Hlen Hsub].
    exists (String.substring 0 (String.length s - String.length suffix) s).
    pose proof (split_at s (String.length s - String.length suffix)) as Hs.
    replace (String.length s - (String.length s - String.length suffix))%nat
      with (String.length suffix) in Hs by lia.
    rewrite Hsub in Hs. apply Hs. lia.
  - intros [front ->]. rewrite length_app. split; [lia |].
    replace (String.length front + String.length suffix
             - String.length suffix)%nat with (String.length front) by lia.
    rewrite substring_skip. apply substring_whole.
Qed.

(** [Math.max] of a non-empty argument list is one of the arguments and
    bounds all of them. *)
Lemma Math_max_ge_init xs : forall x, x <= Js.Math_max x xs.
Proof.
  unfold Js.Math_max. induction xs as [| y ys IH]; intros x; simpl.
  - lia.
  - specialize (IH (Z.max x y)). lia.
Qed.

Lemma Math_max_upper xs : forall x t, In t (x :: xs) -> t <= Js.Math_max x xs.
Proof.
  induction xs as [| y ys IH]; intros x t Hin.
  - destruct Hin as [Heq | []]. subst t. unfold Js.Math_max. simpl. lia.
  - change (Js.Math_max x (y :: ys)) with (Js.Math_max (Z.max x y) ys).
    pose proof (Math_max_ge_init ys (Z.max x y)) as Hge.
    destruct Hin as [Heq | [Heq | Hin]].
    + subst t. lia.
    + subst t. lia.
    + apply IH. right. exact Hin.
Qed.

Lemma Math_max_In xs : forall x, In (Js.Math_max x xs) (x :: xs).
Proof.
  induction xs as [| y ys IH]; intros x.
  - left. reflexivity.
  - change (Js.Math_max x (y :: ys)) with (Js.Math_max (Z.max x y) ys).
    destruct (IH (Z.max x y)) as [Heq | Hin].
    + rewrite <- Heq.
      destruct (Z.max_spec x y) as [[_ ->] | [_ ->]]; simpl; auto.
    + right. right. exact Hin.
Qed.

(** The sort, for any comparator. *)
Section SortFacts.
Context {A : Type} (cmp : A -> A -> Z).

Definition before (a b : A) : Prop := cmp a b <= 0.

Lemma insert_Permutation x l : Permutation (x :: l) (Js.insert cmp x l).
Proof.
  induction l as [| y l IH]; simpl.
  - apply Permutation_refl.
  - destruct (cmp x y <=? 0).
    + apply Permutation_refl.
    + eapply perm_trans; [apply perm_swap |].
      apply perm_skip. exact IH.
Qed.

Lemma sort_Permutation l : Permutation l (Js.sort cmp l).
Proof.
  induction l as [| x l IH]; simpl.
  - apply perm_nil.
  - eapply perm_trans; [| apply insert_Permutation].
    apply perm_skip. exact IH.
Qed.

(** A class of mutually tied elements keeps its input order. *)
Lemma insert_stable (p : A -> bool) x l :
  (forall a b, p a = true -> p b = true -> cmp a b <= 0) ->
  filter p (Js.insert cmp x l) = filter p (x :: l).
Proof.
  intros Htie. induction l as [| y l IH]; [reflexivity |].
  simpl Js.insert. destruct (Z.leb_spec (cmp x y) 0) as [Hle | Hgt].
  - reflexivity.
  - change (filter p (y :: Js.insert cmp x l))
      with (if p y then y :: filter p (Js.insert cmp x l)
            else filter p (Js.insert cmp x l)).
    rewrite IH. simpl.
    destruct (p x) eqn:Hx, (p y) eqn:Hy; try reflexivity.
    specialize (Htie x y Hx Hy). lia.
Qed.

Lemma sort_stable (p : A -> bool) l :
  (forall a b, p a = true -> p b = true -> cmp a b <= 0) ->
  filter p (Js.sort cmp l) = filter p l.
Proof.
  intros Htie. induction l as [| x l IH]; [reflexivity |].
  simpl Js.sort. rewrite insert_stable by exact Htie.
  simpl. rewrite IH. reflexivity.
Qed.

(** With a comparator that orders any two elements one way or the other,
    the result is sorted. *)
Hypothesis cmp_total : forall a b, 0 < cmp a b -> cmp b a <= 0.

Lemma insert_Sorted x l :
  Sorted before l -> Sorted before (Js.insert cmp x l).
Proof.
  induction l as [| y l IH]; intros Hs; simpl.
  - repeat constructor.
  - destruct (Z.leb_spec (cmp x y) 0) as [Hle | Hgt].
    + constructor; [exact Hs |]. constructor. exact Hle.
    + inversion Hs as [| ? ? Hs' Hhd]; subst.
      constructor; [apply IH; exact Hs' |].
      destruct l as [| z l]; simpl.
      * constructor. apply cmp_total. exact Hgt.
      * destruct (Z.leb_spec (cmp x z) 0).
        -- constructor. apply cmp_total. exact Hgt.
        -- constructor. inversion Hhd; subst. assumption.
Qed.

Lemma sort_Sorted l : Sorted before (Js.sort cmp l).
Proof.
  induction l as [| x l IH]; simpl.
  - constructor.
  - apply insert_Sorted. exact IH.
Qed.
End SortFacts.

End JsFacts.

Lemma Sorted_weaken {A} (R S : A -> A -> Prop) l :
  (forall a b, R a b -> S a b) -> Sorted R l -> Sorted S l.
Proof.
  intros Hsub Hs. induction Hs as [| a l Hs IH Hhd]; constructor.
  - exact IH.
  - destruct Hhd; constructor. apply Hsub. assumption.
Qed.

(** ** Chronological lists and the sort by time *)

Lemma time_le_trans : Relations_1.Transitive time_le.
Proof. intros a b c Hab Hbc. unfold time_le in *. lia. Qed.

Lemma chronological_head_earliest x l :
  chronological (x :: l) -> forall y, In y (x :: l) -> ev_time x <= ev_time y.
Proof.
  intros Hs. apply Sorted_StronglySorted in Hs; [| exact time_le_trans].
  inversion Hs as [| ? ? _ Hall]; subst. intros y [<- | Hin]; [lia |].
  rewrite Forall_forall in Hall. apply Hall. exact Hin.
Qed.

Lemma chronological_last_is_latest history e :
  chronological (history ++ [e]) ->
  forall x, In x (history ++ [e]) -> ev_time x <= ev_time e.
Proof.
  intros Hs. apply Sorted_StronglySorted in Hs; [| exact time_le_trans].
  induction history as [| a l IH]; simpl in *; intros x Hin.
  - destruct Hin as [-> | []]. lia.
  - inversion Hs as [| ? ? Hs' Hall]; subst.
    destruct Hin as [-> | Hin].
    + rewrite Forall_forall in Hall. apply Hall.
      apply in_or_app. right. left. reflexivity.
    + apply IH; assumption.
Qed.

Lemma sort_by_time_chronological l : chronological (Js.sort by_time l).
Proof.
  unfold chronological.
  apply Sorted_weaken with (R := JsFacts.before by_time).
  - unfold JsFacts.before, by_time, time_le. intros a b H. lia.
  - apply JsFacts.sort_Sorted. unfold by_time. intros a b H. lia.
Qed.

Lemma sort_by_time_stable l t :
  filter (at_time t) (Js.sort by_time l) = filter (at_time t) l.
Proof.
  apply JsFacts.sort_stable. unfold at_time, by_time.
  intros a b Ha Hb. apply Z.eqb_eq in Ha, Hb. lia.
Qed.

Lemma at_time_head x l :
  filter (at_time (ev_time x)) (x :: l)
  = x :: filter (at_time (ev_time x)) l.
Proof. simpl. unfold at_time at 1. rewrite Z.eqb_refl. reflexivity. Qed.

Lemma In_of_at_time t x l l' : filter (at_time t) l = x :: l' -> In x l.
Proof.
  intros H.
  assert (Hin : In x (filter (at_time t) l)) by (rewrite H; left; reflexivity).
  apply filter_In in Hin. tauto.
Qed.

(** Two chronological lists with the same events, in the same order, at
    every instant are the same list. *)
Lemma chronological_same_ties l1 : forall l2,
  chronological l1 -> chronological l2 ->
  (forall t, filter (at_time t) l1 = filter (at_time t) l2) ->
  l1 = l2.
Proof.
  induction l1 as [| x l1 IH]; intros l2 Hs1 Hs2 Hties.
  - destruct l2 as [| y l2]; [reflexivity |].
    specialize (Hties (ev_time y)). rewrite at_time_head in Hties.
    discriminate.
  - destruct l2 as [| y l2].
    { specialize (Hties (ev_time x)). rewrite at_time_head in Hties.
      discriminate. }
    assert (Hxy : ev_time x <= ev_time y).
    { apply (chronological_head_earliest x l1 Hs1).
      pose proof (Hties (ev_time y)) as H. rewrite (at_time_head y) in H.
      eapply In_of_at_time. exact H. }
    assert (Hyx : ev_time y <= ev_time x).
    { apply (chronological_head_earliest y l2 Hs2).
      pose proof (Hties (ev_time x)) as H. rewrite (at_time_head x) in H.
      eapply In_of_at_time. symmetry. exact H. }
    assert (Hk : ev_time y = ev_time x) by lia.
    pose proof (Hties (ev_time x)) as Hhead.
    rewrite at_time_head, <- Hk, at_time_head in Hhead.
    injection Hhead as Hhead _. subst y.
    f_equal. apply IH.
    + inversion Hs1; assumption.
    + inversion Hs2; assumption.
    + intros t. specialize (Hties t). simpl in Hties.
      destruct (at_time t x); [injection Hties as Hties |]; exact Hties.
Qed.

(** Hence any stable ascending sort by time computes what [Js.sort
    by_time] computes: the insertion sort stands for whichever algorithm
    the engine runs. *)
Lemma stable_sort_unique l sorted :
  chronological sorted ->
  (forall t, filter (at_time t) sorted = filter (at_time t) l) ->
  sorted = Js.sort by_time l.
Proof.
  intros Hs Hties. apply chronological_same_ties.
  - exact Hs.
  - apply sort_by_time_chronological.
  - intros t. rewrite sort_by_time_stable. apply Hties.
Qed.

(** ** History replayer *)

Lemma EventType_eqb_eq a b : EventType_eqb a b = true <-> a = b.
Proof. destruct a, b; simpl; split; intros H; congruence. Qed.

Lemma Role_eqb_eq a b : Role_eqb a b = true <-> a = b.
Proof. destruct a, b; simpl; split; intros H; congruence. Qed.

(** The loop overwrites every field, so the state after the pass is the
    one written for the last event. *)
Lemma replay_last history e maintainers issueAuthor :
  replayHistoryToFindState (history ++ [e]) maintainers issueAuthor
  = replay_step maintainers issueAuthor
      (replayHistoryToFindState history maintainers issueAuthor) e.
Proof.
  unfold replayHistoryToFindState. rewrite !fold_left_app. simpl.
  reflexivity.
Qed.

(** C6 (amended): every actor gets exactly one role.  It is [author]
    exactly when the actor is the issue author; otherwise [maintainer]
    exactly when the actor is a non-empty login listed among the
    maintainers; otherwise (absent, empty or unlisted) [other_user]. *)
Theorem role_of_classification maintainers issueAuthor actor :
  let listed :=
    exists a, actor = Some a /\ a <> "" /\ In a maintainers in
  (role_of maintainers issueAuthor actor = author
   <-> actor = Some issueAuthor)
  /\ (role_of maintainers issueAuthor actor = maintainer
      <-> actor <> Some issueAuthor /\ listed)
  /\ (role_of maintainers issueAuthor actor = other_user
      <-> actor <> Some issueAuthor /\ ~ listed).
Proof.
  intros listed. subst listed. unfold role_of.
  destruct actor as [a |].
  - destruct (String.eqb_spec a issueAuthor) as [-> | Hne].
    + repeat split; try congruence; intros [H _]; congruence.
    + assert (Hne' : Some a <> Some issueAuthor) by congruence.
      destruct (Js.truthy (Some a) && Js.array_includes maintainers a)
        eqn:Hguard.
      * apply andb_true_iff in Hguard as [Ht Hin].
        apply JsFacts.truthy_Some in Ht.
        apply JsFacts.array_includes_In in Hin.
        repeat split; try congruence; eauto.
        intros [_ Hno]. exfalso. apply Hno. eauto.
      * assert (Hno : ~ (exists a0, Some a = Some a0 /\ a0 <> ""
                                    /\ In a0 maintainers)).
        { intros [a0 [Heq [Hnz Hin]]]. injection Heq as <-.
          apply JsFacts.truthy_Some in Hnz.
          apply JsFacts.array_includes_In in Hin.
          rewrite Hnz, Hin in Hguard. discriminate. }
        repeat split; try congruence; try assumption.
        intros [_ Hyes]. contradiction.
  - assert (Hno : ~ (exists a, @None string = Some a /\ a <> ""
                               /\ In a maintainers)).
    { intros [a [Heq _]]. discriminate. }
    repeat split; try congruence; try assumption.
    intros [_ Hyes]. contradiction.
Qed.

(** The role recorded by the replayer is the role of the last actor. *)
Lemma replay_last_fields history e maintainers issueAuthor :
  let st :=
    replayHistoryToFindState (history ++ [e]) maintainers issueAuthor in
  last_action_type st = ev_type e
  /\ last_actor_name st = ev_actor e
  /\ last_action_role st = role_of maintainers issueAuthor (ev_actor e).
Proof. intros st. subst st. rewrite replay_last. simpl. auto. Qed.

(** C1 (amended): for a timeline ending in [e], the replayed
    [last_activity_time] is the time of [e], which in a chronological
    timeline is the latest of all; [last_comment_text] is the text of [e]
    when [e] is a comment and [null] otherwise, so it is non-null exactly
    when [e] is a comment that carries a text. *)
Theorem replay_reflects_last_event history e maintainers issueAuthor :
  let st :=
    replayHistoryToFindState (history ++ [e]) maintainers issueAuthor in
  last_activity_time st = ev_time e
  /\ (chronological (history ++ [e]) ->
      forall x, In x (history ++ [e]) -> ev_time x <= last_activity_time st)
  /\ last_comment_text st
     = (if EventType_eqb (ev_type e) commented then ev_data e else None)
  /\ (last_comment_text st <> None
      <-> ev_type e = commented /\ ev_data e <> None).
Proof.
  intros st. subst st. rewrite replay_last. simpl.
  split; [reflexivity |]. split.
  - apply chronological_last_is_latest.
  - split; [reflexivity |].
    destruct (EventType_eqb (ev_type e) commented) eqn:Hty.
    + apply EventType_eqb_eq in Hty. tauto.
    + split; [congruence |]. intros [Hc _].
      apply EventType_eqb_eq in Hc. congruence.
Qed.

(** The defaults, returned for an empty history only. *)
Lemma replay_empty maintainers issueAuthor :
  replayHistoryToFindState [] maintainers issueAuthor
  = mkState author 0 created None (Some issueAuthor).
Proof. reflexivity. Qed.

(** ** Staleness evaluator *)

Section EvaluatorFacts.

Variable env : Env.

Lemma maintainerAlertNeeded_iff state lastBotAlertTime :
  maintainerAlertNeeded state lastBotAlertTime = true
  <-> (last_action_role state = author
       \/ last_action_role state = other_user)
      /\ last_action_type state = edited_description
      /\ ~ (exists t, lastBotAlertTime = Some t
                      /\ last_activity_time state < t).
Proof.
  unfold maintainerAlertNeeded.
  destruct ((Role_eqb (last_action_role state) author
             || Role_eqb (last_action_role state) other_user)
            && EventType_eqb (last_action_type state) edited_description)
    eqn:Hguard.
  - apply andb_true_iff in Hguard as [Hrole Hty].
    apply orb_true_iff in Hrole. rewrite !Role_eqb_eq in Hrole.
    apply EventType_eqb_eq in Hty.
    destruct lastBotAlertTime as [t |].
    + destruct (Z.gtb_spec t (last_activity_time state)) as [Hgt | Hle].
      * split; [discriminate |]. intros [_ [_ Hno]]. exfalso.
        apply Hno. exists t. split; [reflexivity | lia].
      * split; [| reflexivity]. intros _. repeat split; try assumption.
        intros [t' [Heq Hlt]]. injection Heq as <-. lia.
    + split; [| reflexivity]. intros _. repeat split; try assumption.
      intros [t' [Heq _]]. discriminate.
  - split; [discriminate |]. intros [Hrole [Hty _]].
    apply andb_false_iff in Hguard as [Hr | Ht].
    + apply orb_false_iff in Hr as [Ha Ho].
      destruct Hrole as [Hrole | Hrole]; apply Role_eqb_eq in Hrole;
        congruence.
    + apply EventType_eqb_eq in Hty. congruence.
Qed.

(** C2: the verdict's [maintainer_alert_needed] is true exactly when the
    last action's role is [author] or [other_user], its type is
    [edited_description], and no bot alert exists that is strictly after
    the last activity time; labels, label log and current time play no
    part. *)
Theorem maintainer_alert_needed_iff maintainers issueAuthor labelsList
    state labelEvents lastBotAlertTime currentTime :
  v_maintainer_alert_needed
    (issue_verdict env maintainers issueAuthor labelsList state labelEvents
       lastBotAlertTime currentTime) = true
  <-> (last_action_role state = author
       \/ last_action_role state = other_user)
      /\ last_action_type state = edited_description
      /\ ~ (exists t, lastBotAlertTime = Some t
                      /\ last_activity_time state < t).
Proof. simpl. apply maintainerAlertNeeded_iff. Qed.

(** A maintainer's own action never asks for an alert. *)
Corollary no_alert_for_maintainer state lastBotAlertTime :
  last_action_role state = maintainer ->
  maintainerAlertNeeded state lastBotAlertTime = false.
Proof.
  intros Hrole. apply not_true_is_false. intros H.
  apply maintainerAlertNeeded_iff in H as [[Hr | Hr] _]; congruence.
Qed.

Lemma is_stale_iff maintainers issueAuthor labelsList state labelEvents
    lastBotAlertTime currentTime :
  v_is_stale
    (issue_verdict env maintainers issueAuthor labelsList state labelEvents
       lastBotAlertTime currentTime) = true
  <-> In (STALE_LABEL_NAME env) labelsList.
Proof. simpl. apply JsFacts.array_includes_In. Qed.

(** C8: [days_since_stale_label] is the day difference between now and
    the latest captured label application when the stale label is among
    the current labels and at least one application was captured, and is
    exactly 0 in every other case (label absent, or present with nothing
    captured). *)
Theorem days_since_stale_label_spec maintainers issueAuthor labelsList
    state labelEvents lastBotAlertTime currentTime :
  let v :=
    issue_verdict env maintainers issueAuthor labelsList state labelEvents
      lastBotAlertTime currentTime in
  (v_is_stale v = true <-> In (STALE_LABEL_NAME env) labelsList)
  /\ (v_is_stale v = true /\ labelEvents <> [] ->
      exists newest,
        In newest labelEvents
        /\ (forall t, In t labelEvents -> t <= newest)
        /\ v_days_since_stale_label v = diff_days env currentTime newest)
  /\ (v_is_stale v = false \/ labelEvents = [] ->
      v_days_since_stale_label v = 0%Q).
Proof.
  intros v. subst v. split; [apply is_stale_iff |].
  simpl. unfold daysSinceStaleLabel.
  destruct (Js.array_includes labelsList (STALE_LABEL_NAME env)).
  - split.
    + intros [_ Hne]. destruct labelEvents as [| t ts]; [congruence |].
      exists (Js.Math_max t ts). split; [apply JsFacts.Math_max_In |].
      split; [apply JsFacts.Math_max_upper | reflexivity].
    + intros [Hf | ->]; [discriminate | reflexivity].
  - split.
    + intros [Hf _]. discriminate.
    + intros _. reflexivity.
Qed.

(** The remaining fields are carried through unchanged. *)
Lemma verdict_carries maintainers issueAuthor labelsList state labelEvents
    lastBotAlertTime currentTime :
  let v :=
    issue_verdict env maintainers issueAuthor labelsList state labelEvents
      lastBotAlertTime currentTime in
  v_status v = "success"
  /\ v_days_since_activity v
     = diff_days env currentTime (last_activity_time state)
  /\ v_current_labels v = labelsList
  /\ v_maintainers v = maintainers
  /\ v_issue_author v = issueAuthor
  /\ v_last_comment_text v = last_comment_text state.
Proof. intros v. subst v. simpl. repeat split. Qed.

End EvaluatorFacts.

(** ** Timeline builder *)

Lemma human_actor_iff actor : human_actor actor = true <-> user_actor actor.
Proof.
  unfold human_actor, user_actor. destruct actor as [a |].
  - rewrite !andb_true_iff, !negb_true_iff, JsFacts.truthy_Some.
    rewrite String.eqb_neq. split.
    + intros [[Hnz Hbot] Hself]. exists a. auto.
    + intros [a' [Heq [Hnz [Hbot Hself]]]]. injection Heq as <-. auto.
  - split; [discriminate |]. intros [a [Heq _]]. discriminate.
Qed.

Lemma latest_Some ts t :
  latest ts = Some t <-> In t ts /\ forall t', In t' ts -> t' <= t.
Proof.
  destruct ts as [| t0 ts]; simpl.
  - split; [discriminate | intros [[] _]].
  - split.
    + intros H. injection H as <-. split.
      * apply JsFacts.Math_max_In.
      * apply JsFacts.Math_max_upper.
    + intros [Hin Hub]. f_equal.
      pose proof (JsFacts.Math_max_In ts t0) as Hm.
      pose proof (JsFacts.Math_max_upper ts t0 t Hin) as Hle.
      specialize (Hub _ Hm). lia.
Qed.

Section BuilderFacts.

Variable env : Env.

(** *** The loops, node by node *)

Lemma comment_loop_history nodes : forall history lastBotAlertTime,
  fst (fold_left (comment_step env) nodes (history, lastBotAlertTime))
  = history ++ flat_map (comment_events env) nodes.
Proof.
  induction nodes as [| node nodes IH]; intros history lastBot; simpl.
  - now rewrite app_nil_r.
  - destruct node as [c |]; simpl; [| apply IH].
    unfold is_alert_comment.
    destruct (Js.includes BOT_ALERT_SIGNATURE (Js.nullish (c_body c) "")).
    + apply IH.
    + destruct (human_actor (c_author c)); [| apply IH].
      rewrite IH, <- app_assoc. reflexivity.
Qed.

Lemma comment_loop_alert nodes : forall history lastBotAlertTime,
  snd (fold_left (comment_step env) nodes (history, lastBotAlertTime))
  = match lastBotAlertTime with
    | Some t => Some (Js.Math_max t (alert_times env nodes))
    | None => latest (alert_times env nodes)
    end.
Proof.
  induction nodes as [| node nodes IH]; intros history lastBot; simpl.
  - destruct lastBot; reflexivity.
  - destruct node as [c |]; simpl; [| apply IH].
    unfold is_alert_comment.
    destruct (Js.includes BOT_ALERT_SIGNATURE (Js.nullish (c_body c) "")).
    + rewrite IH. destruct lastBot as [t |]; simpl.
      * destruct (Z.gtb_spec (parseISO env (c_createdAt c)) t) as [Hgt | Hle];
          unfold Js.Math_max; simpl; do 2 f_equal; lia.
      * reflexivity.
    + destruct (human_actor (c_author c)); apply IH.
Qed.

Lemma edit_loop nodes : forall history,
  fold_left (edit_step env) nodes history
  = history ++ flat_map (edit_events env) nodes.
Proof.
  induction nodes as [| node nodes IH]; intros history; simpl.
  - now rewrite app_nil_r.
  - destruct node as [e |]; simpl; [| apply IH].
    destruct (human_actor (e_editor e)); [| apply IH].
    rewrite IH, <- app_assoc. reflexivity.
Qed.

Lemma timeline_loop nodes : forall history labelEvents,
  fold_left (timeline_step env) nodes (history, labelEvents)
  = (history ++ flat_map (item_events env) nodes,
     labelEvents ++ flat_map (stale_label_times env) nodes).
Proof.
  induction nodes as [| node nodes IH]; intros history labelEvents; simpl.
  - now rewrite !app_nil_r.
  - destruct node as [t |]; simpl; [| apply IH].
    destruct (t_typename t); simpl.
    + destruct (t_label t) as [name |]; [| apply IH].
      destruct (String.eqb name (STALE_LABEL_NAME env)); [| apply IH].
      rewrite IH, <- app_assoc. reflexivity.
    + destruct (human_actor (t_actor t)); [| apply IH].
      rewrite IH, <- app_assoc. reflexivity.
    + destruct (human_actor (t_actor t)); [| apply IH].
      rewrite IH, <- app_assoc. reflexivity.
Qed.

Lemma ingest_spec data :
  ingest env data
  = (pushed env data,
     flat_map (stale_label_times env) (Js.nullish (d_timelineItems data) []),
     latest (alert_times env (Js.nullish (d_comments data) []))).
Proof.
  unfold ingest, pushed, pushed_after_created.
  pose proof (comment_loop_history (Js.nullish (d_comments data) [])
                [created_event env data] None) as Hh.
  pose proof (comment_loop_alert (Js.nullish (d_comments data) [])
                [created_event env data] None) as Ha.
  destruct (fold_left (comment_step env)
              (Js.nullish (d_comments data) [])
              ([created_event env data], None)) as [h a].
  simpl in Hh, Ha. subst h a.
  rewrite edit_loop, timeline_loop. simpl.
  rewrite <- !app_assoc. reflexivity.
Qed.

Lemma build_spec data :
  buildHistoryTimeline env data
  = (Js.sort by_time (pushed env data),
     flat_map (stale_label_times env) (Js.nullish (d_timelineItems data) []),
     latest (alert_times env (Js.nullish (d_comments data) []))).
Proof. unfold buildHistoryTimeline. rewrite ingest_spec. reflexivity. Qed.

Lemma built_history_eq data :
  built_history env data = Js.sort by_time (pushed env data).
Proof. unfold built_history. rewrite build_spec. reflexivity. Qed.

Lemma built_history_Permutation data :
  Permutation (pushed env data) (built_history env data).
Proof. rewrite built_history_eq. apply JsFacts.sort_Permutation. Qed.

Lemma In_built_history data e :
  In e (built_history env data) <-> In e (pushed env data).
Proof.
  split; apply Permutation_in;
    [apply Permutation_sym |]; apply built_history_Permutation.
Qed.

(** C5: the history is the stable ascending sort by time of the events in
    push order (the [created] event first, then comments, edits and
    timeline items): it is never empty, holds the [created] event anchored
    at the creation instant, has non-decreasing times, is a rearrangement
    of the pushed events, and keeps events of equal time in push order;
    the [created] event goes through the same sort as the rest. *)
Theorem built_history_sorted data :
  built_history env data = Js.sort by_time (pushed env data)
  /\ pushed env data
     = mkEvent created (d_author data) (parseISO env (d_createdAt data)) None
       :: flat_map (comment_events env) (Js.nullish (d_comments data) [])
       ++ flat_map (edit_events env) (Js.nullish (d_userContentEdits data) [])
       ++ flat_map (item_events env) (Js.nullish (d_timelineItems data) [])
  /\ (1 <= List.length (built_history env data))%nat
  /\ In (mkEvent created (d_author data) (parseISO env (d_createdAt data))
           None)
       (built_history env data)
  /\ chronological (built_history env data)
  /\ Permutation (pushed env data) (built_history env data)
  /\ (forall t,
        filter (at_time t) (built_history env data)
        = filter (at_time t) (pushed env data)).
Proof.
  split; [apply built_history_eq |]. split; [reflexivity |].
  split.
  { rewrite <- (Permutation_length (built_history_Permutation data)).
    simpl. lia. }
  split.
  { apply In_built_history. left. reflexivity. }
  split.
  { rewrite built_history_eq. apply sort_by_time_chronological. }
  split; [apply built_history_Permutation |].
  intros t. rewrite built_history_eq. apply sort_by_time_stable.
Qed.

(** *** Who can appear in the history *)

Lemma comment_events_actor node :
  Forall (fun e => ev_type e = commented /\ user_actor (ev_actor e))
    (comment_events env node).
Proof.
  destruct node as [c |]; simpl; [| constructor].
  destruct (is_alert_comment c); [constructor |].
  destruct (human_actor (c_author c)) eqn:Hh; [| constructor].
  repeat constructor. simpl. apply human_actor_iff. exact Hh.
Qed.

Lemma edit_events_actor node :
  Forall (fun e => ev_type e = edited_description
                   /\ user_actor (ev_actor e))
    (edit_events env node).
Proof.
  destruct node as [e |]; simpl; [| constructor].
  destruct (human_actor (e_editor e)) eqn:Hh; [| constructor].
  repeat constructor. simpl. apply human_actor_iff. exact Hh.
Qed.

Lemma item_events_actor node :
  Forall (fun e => (ev_type e = renamed_title \/ ev_type e = reopened)
                   /\ user_actor (ev_actor e))
    (item_events env node).
Proof.
  destruct node as [t |]; simpl; [| constructor].
  destruct (t_typename t); [constructor | |];
    destruct (human_actor (t_actor t)) eqn:Hh; try constructor;
    try constructor; simpl; auto; apply human_actor_iff; exact Hh.
Qed.

Lemma pushed_after_created_actor data :
  Forall (fun e => ev_type e <> created /\ user_actor (ev_actor e))
    (pushed_after_created env data).
Proof.
  unfold pushed_after_created. rewrite !Forall_app. repeat split;
    apply Forall_flat_map, Forall_forall; intros node _.
  - eapply Forall_impl; [| apply comment_events_actor].
    simpl. intros e [Hty Hu]. split; [congruence | exact Hu].
  - eapply Forall_impl; [| apply edit_events_actor].
    simpl. intros e [Hty Hu]. split; [congruence | exact Hu].
  - eapply Forall_impl; [| apply item_events_actor].
    simpl. intros e [[Hty | Hty] Hu]; (split; [congruence | exact Hu]).
Qed.

(** C10: the history is the [created] event together with events that all
    carry a non-null actor which is neither the agent's own identity nor a
    login ending in "[bot]"; so an event with an absent actor can only be
    the [created] event. *)
Theorem built_history_actors data :
  Permutation (built_history env data)
    (created_event env data :: pushed_after_created env data)
  /\ Forall
       (fun e =>
          ev_type e <> created
          /\ exists a, ev_actor e = Some a /\ a <> BOT_NAME
                       /\ Js.endsWith a "[bot]" = false)
       (pushed_after_created env data)
  /\ (forall e, In e (built_history env data) -> ev_type e <> created ->
        exists a, ev_actor e = Some a /\ a <> BOT_NAME
                  /\ Js.endsWith a "[bot]" = false)
  /\ (forall e, In e (built_history env data) -> ev_actor e = None ->
        e = created_event env data).
Proof.
  assert (Hrest : Forall
       (fun e =>
          ev_type e <> created
          /\ exists a, ev_actor e = Some a /\ a <> BOT_NAME
                       /\ Js.endsWith a "[bot]" = false)
       (pushed_after_created env data)).
  { eapply Forall_impl; [| apply pushed_after_created_actor].
    simpl. intros e [Hty [a [Ha [_ [Hbot Hself]]]]]. split; eauto. }
  split; [apply Permutation_sym, built_history_Permutation |].
  split; [exact Hrest |].
  rewrite Forall_forall in Hrest. split.
  - intros e Hin Hty. apply In_built_history in Hin.
    destruct Hin as [<- | Hin]; [simpl in Hty; congruence |].
    apply (Hrest e Hin).
  - intros e Hin Hnone. apply In_built_history in Hin.
    destruct Hin as [<- | Hin]; [reflexivity |].
    destruct (Hrest e Hin) as [_ [a [Ha _]]]. congruence.
Qed.

End BuilderFacts.

(** ** Comments: alerts and user comments *)

Section CommentFacts.

Variable env : Env.

Lemma comment_events_filter nodes :
  flat_map (comment_events env) (filter keep_comment nodes)
  = flat_map (comment_events env) nodes.
Proof.
  induction nodes as [| node nodes IH]; [reflexivity |].
  simpl. destruct node as [c |]; simpl.
  - destruct (is_alert_comment c) eqn:Halert; simpl.
    + exact IH.
    + rewrite Halert, IH. reflexivity.
  - exact IH.
Qed.

Lemma alert_times_filter nodes :
  alert_times env (filter keep_comment nodes) = [].
Proof.
  induction nodes as [| node nodes IH]; [reflexivity |].
  simpl. destruct node as [c |]; simpl.
  - destruct (is_alert_comment c) eqn:Halert; simpl.
    + exact IH.
    + rewrite Halert, IH. reflexivity.
  - exact IH.
Qed.

Lemma comments_without_alerts data :
  Js.nullish (d_comments (without_alert_comments data)) []
  = filter keep_comment (Js.nullish (d_comments data) []).
Proof. simpl. destruct (d_comments data); reflexivity. Qed.

Lemma pushed_without_alerts data :
  pushed env (without_alert_comments data) = pushed env data.
Proof.
  unfold pushed, pushed_after_created.
  rewrite comments_without_alerts, comment_events_filter.
  reflexivity.
Qed.

Lemma commented_in_history data e :
  In e (built_history env data) -> ev_type e = commented ->
  exists c,
    In (Some c) (Js.nullish (d_comments data) [])
    /\ is_alert_comment c = false
    /\ e = mkEvent commented (c_author c) (actualTime env c)
             (Some (Js.nullish (c_body c) "")).
Proof.
  intros Hin Hty. apply In_built_history in Hin.
  destruct Hin as [<- | Hin]; [discriminate |].
  apply in_app_or in Hin as [Hin | Hin].
  - apply in_flat_map in Hin as [node [Hnode Hin]].
    destruct node as [c |]; simpl in Hin; [| contradiction].
    destruct (is_alert_comment c) eqn:Halert; [contradiction |].
    destruct (human_actor (c_author c)); [| contradiction].
    destruct Hin as [<- | []]. exists c. auto.
  - exfalso. apply in_app_or in Hin as [Hin | Hin];
      apply in_flat_map in Hin as [node [_ Hin]].
    + pose proof (edit_events_actor env node) as Hall.
      rewrite Forall_forall in Hall. destruct (Hall e Hin). congruence.
    + pose proof (item_events_actor env node) as Hall.
      rewrite Forall_forall in Hall.
      destruct (Hall e Hin) as [[H | H] _]; congruence.
Qed.

(** C3: no [commented] event of the history has a body containing the
    alert signature; history and label log are what they would be with the
    signature-bearing comments removed from the input; and
    [lastBotAlertTime] is the largest creation instant among those
    comments, [null] when there is none. *)
Theorem alert_comments_only_feed_lastBotAlert data :
  let alerts := alert_times env (Js.nullish (d_comments data) []) in
  (forall e, In e (built_history env data) -> ev_type e = commented ->
     exists body, ev_data e = Some body
                  /\ Js.includes BOT_ALERT_SIGNATURE body = false)
  /\ built_history env data = built_history env (without_alert_comments data)
  /\ built_labelEvents env data
     = built_labelEvents env (without_alert_comments data)
  /\ built_lastBotAlertTime env (without_alert_comments data) = None
  /\ (forall t,
        built_lastBotAlertTime env data = Some t
        <-> In t alerts /\ forall t', In t' alerts -> t' <= t)
  /\ (built_lastBotAlertTime env data = None <-> alerts = []).
Proof.
  intros alerts. subst alerts. split.
  { intros e Hin Hty.
    destruct (commented_in_history data e Hin Hty) as [c [_ [Halert ->]]].
    simpl. eexists. split; [reflexivity | exact Halert]. }
  unfold built_history, built_labelEvents, built_lastBotAlertTime.
  rewrite !build_spec. cbn [fst snd].
  rewrite pushed_without_alerts, comments_without_alerts, alert_times_filter.
  split; [reflexivity |]. split; [reflexivity |].
  split; [reflexivity |]. split.
  - intros t. apply latest_Some.
  - destruct (alert_times env (Js.nullish (d_comments data) []));
      simpl; split; intros H; congruence.
Qed.

(** The time given to a comment event. *)
Lemma actualTime_spec c :
  (forall s, c_lastEditedAt c = Some s -> s <> "" ->
     actualTime env c = parseISO env s)
  /\ (c_lastEditedAt c = None \/ c_lastEditedAt c = Some "" ->
      actualTime env c = parseISO env (c_createdAt c)).
Proof.
  unfold actualTime. split.
  - intros s -> Hnz. apply JsFacts.truthy_Some in Hnz. rewrite Hnz.
    reflexivity.
  - intros [-> | ->]; reflexivity.
Qed.

(** One user comment contributes exactly one event. *)
Lemma comment_events_user c a :
  c_author c = Some a ->
  a <> "" ->
  Js.endsWith a "[bot]" = false ->
  a <> BOT_NAME ->
  is_alert_comment c = false ->
  comment_events env (Some c)
  = [mkEvent commented (Some a) (actualTime env c)
       (Some (Js.nullish (c_body c) ""))].
Proof.
  intros Hauthor Hnz Hbot Hself Hbody. simpl. rewrite Hbody, Hauthor.
  assert (Hh : human_actor (Some a) = true).
  { apply human_actor_iff. exists a. auto. }
  rewrite Hh. reflexivity.
Qed.

(** C7 (amended): a comment whose author is a non-empty login, not a bot's
    and not the agent's own, and whose body lacks the alert signature,
    puts a [commented] event into the history with that author and body;
    its time is the last-edited time when that field is present and
    non-empty, and the creation time otherwise. *)
Theorem comment_event_emitted data nodes c a :
  d_comments data = Some nodes ->
  In (Some c) nodes ->
  c_author c = Some a ->
  a <> "" ->
  Js.endsWith a "[bot]" = false ->
  a <> BOT_NAME ->
  Js.includes BOT_ALERT_SIGNATURE (Js.nullish (c_body c) "") = false ->
  exists e,
    In e (built_history env data)
    /\ ev_type e = commented
    /\ ev_actor e = Some a
    /\ ev_data e = Some (Js.nullish (c_body c) "")
    /\ (forall s, c_lastEditedAt c = Some s -> s <> "" ->
          ev_time e = parseISO env s)
    /\ (c_lastEditedAt c = None \/ c_lastEditedAt c = Some "" ->
        ev_time e = parseISO env (c_createdAt c)).
Proof.
  intros Hnodes Hin Hauthor Hnz Hbot Hself Hbody.
  exists (mkEvent commented (Some a) (actualTime env c)
            (Some (Js.nullish (c_body c) ""))).
  split.
  - apply In_built_history. right. apply in_or_app. left.
    apply in_flat_map. exists (Some c). rewrite Hnodes. split; [exact Hin |].
    rewrite (comment_events_user c a) by assumption. left. reflexivity.
  - simpl. repeat split; apply actualTime_spec.
Qed.

(** Every comment event of a built history carries a text, so on built
    histories the replayed [last_comment_text] is non-null exactly when
    the last event is a comment. *)
Lemma replay_of_built_history data history e maintainers issueAuthor :
  built_history env data = history ++ [e] ->
  last_comment_text
    (replayHistoryToFindState (built_history env data) maintainers issueAuthor)
  <> None
  <-> ev_type e = commented.
Proof.
  intros Hsplit.
  assert (Hin : In e (built_history env data)).
  { rewrite Hsplit. apply in_or_app. right. left. reflexivity. }
  rewrite Hsplit, replay_last. simpl.
  destruct (EventType_eqb (ev_type e) commented) eqn:Hty.
  - apply EventType_eqb_eq in Hty. split; [intros _; exact Hty |].
    intros _.
    destruct (commented_in_history data e Hin Hty) as [c [_ [_ ->]]].
    discriminate.
  - split; [congruence |]. intros Hc. apply EventType_eqb_eq in Hc.
    congruence.
Qed.

End CommentFacts.

(** ** The tool entry point *)

Section ToolFacts.

Variable env : Env.

Lemma getIssueState_catch_eq e st :
  getIssueState_catch e st
  = (Returned (inr (errorResponse (catch_message e))), st).
Proof. destruct e; reflexivity. Qed.

(** The try block never returns an error response by itself. *)
Lemma getIssueState_try_returns w n st r st' :
  getIssueState_try env w n st = (Returned r, st') -> exists v, r = inl v.
Proof.
  unfold getIssueState_try, bind.
  destruct (getCachedMaintainers w st) as [[m | e] st1]; [| discriminate].
  destruct (fetchGraphqlData env w n st1) as [[raw | e] st2];
    [| discriminate].
  destruct (buildHistoryTimeline env raw) as [[h l] a].
  unfold ret. intros H. injection H as <- _. eauto.
Qed.

(** C9: [getIssueState] returns for every answer of the network and every
    state, it never throws; and whenever a step of its try block fails
    with [e] (issue not found, GraphQL error, transport error or anything
    else thrown) the value returned is the error response with status
    "error" and the message built from [e]. *)
Theorem getIssueState_never_throws w n st :
  exists result st',
    getIssueState env w n st = (Returned result, st')
    /\ (forall e st1, getIssueState_try env w n st = (Threw e, st1) ->
          st' = st1
          /\ result = inr {| err_status := "error";
                             err_message := catch_message e |})
    /\ (forall v st1, getIssueState_try env w n st = (Returned v, st1) ->
          st' = st1 /\ result = v /\ exists ok, v = inl ok).
Proof.
  unfold getIssueState, try_catch.
  destruct (getIssueState_try env w n st) as [[r | e] st1] eqn:Htry.
  - exists r, st1. split; [reflexivity |]. split.
    + intros e st2 H. discriminate.
    + intros v st2 H. injection H as <- <-.
      repeat split. eapply getIssueState_try_returns. exact Htry.
  - rewrite getIssueState_catch_eq.
    exists (inr (errorResponse (catch_message e))), st1.
    split; [reflexivity |]. split.
    + intros e' st2 H. injection H as <- <-. split; reflexivity.
    + intros v st2 H. discriminate.
Qed.

(** *** The maintainer list *)

Lemma getCachedMaintainers_cached w st cached :
  maintainersCache st = Some cached ->
  getCachedMaintainers w st = (Returned cached, st).
Proof. unfold getCachedMaintainers. intros ->. reflexivity. Qed.

Lemma getCachedMaintainers_fetch w st users :
  maintainersCache st = None ->
  get_collaborators w = inr users ->
  getCachedMaintainers w st
  = (Returned (map login users),
     {| maintainersCache := Some (map login users);
        apiCallCount := apiCallCount st + 1 |}).
Proof.
  unfold getCachedMaintainers. intros -> Hget.
  unfold try_catch, getRequest, bind. rewrite Hget. reflexivity.
Qed.

Lemma getCachedMaintainers_failure w st e :
  maintainersCache st = None ->
  get_collaborators w = inl e ->
  getCachedMaintainers w st
  = (Threw (OtherError maintainer_failure), count_call st).
Proof.
  unfold getCachedMaintainers. intros -> Hget.
  unfold try_catch, getRequest, bind. rewrite Hget. reflexivity.
Qed.

(** C4 (amended): when the maintainer fetch fails, [getCachedMaintainers]
    throws its own error, and [getIssueState], whose try block makes that
    call, catches it: the tool returns the error response "Analysis Error:
    Maintainer verification failed. Processing aborted.", makes no further
    request, and leaves the cache empty, so the next call fetches again. *)
Theorem maintainer_fetch_failure_is_reported w n st e :
  maintainersCache st = None ->
  get_collaborators w = inl e ->
  getCachedMaintainers w st
  = (Threw (OtherError maintainer_failure), count_call st)
  /\ getIssueState env w n st
     = (Returned
          (inr {| err_status := "error";
                  err_message :=
                    "Analysis Error: Maintainer verification failed. Processing aborted." |}),
        count_call st)
  /\ maintainersCache (count_call st) = None.
Proof.
  intros Hcache Hget.
  pose proof (getCachedMaintainers_failure w st e Hcache Hget) as Hm.
  split; [exact Hm |]. split.
  - unfold getIssueState, try_catch, getIssueState_try, bind.
    rewrite Hm. reflexivity.
  - simpl. exact Hcache.
Qed.

(** *** The failures of the issue query, one by one *)

Lemma transport_error_reported w n st maintainers st1 e :
  getCachedMaintainers w st = (Returned maintainers, st1) ->
  post_graphql w n = inl e ->
  getIssueState env w n st
  = (Returned (inr (errorResponse (catch_message e))), count_call st1).
Proof.
  intros Hm Hpost.
  unfold getIssueState, try_catch, getIssueState_try, bind.
  rewrite Hm. unfold fetchGraphqlData, postRequest, bind. simpl.
  rewrite Hpost. simpl. apply getIssueState_catch_eq.
Qed.

Lemma graphql_error_reported w n st maintainers st1 resp first rest :
  getCachedMaintainers w st = (Returned maintainers, st1) ->
  post_graphql w n = inr resp ->
  resp_errors resp = Some (first :: rest) ->
  getIssueState env w n st
  = (Returned
       (inr (errorResponse
               ("Network Error: GraphQL Error: " ++ message first)%string)),
     count_call st1).
Proof.
  intros Hm Hpost Herr.
  unfold getIssueState, try_catch, getIssueState_try, bind.
  rewrite Hm. unfold fetchGraphqlData, postRequest, bind. simpl.
  rewrite Hpost. simpl. rewrite Herr. reflexivity.
Qed.

Lemma not_found_reported w n st maintainers st1 resp :
  getCachedMaintainers w st = (Returned maintainers, st1) ->
  post_graphql w n = inr resp ->
  (resp_errors resp = None \/ resp_errors resp = Some []) ->
  response_issue resp = None ->
  getIssueState env w n st
  = (Returned
       (inr (errorResponse
               ("Network Error: Issue #" ++ Number_toString env n
                ++ " not found.")%string)),
     count_call st1).
Proof.
  intros Hm Hpost Herr Hissue.
  unfold getIssueState, try_catch, getIssueState_try, bind.
  rewrite Hm. unfold fetchGraphqlData, postRequest, bind. simpl.
  rewrite Hpost. simpl.
  destruct Herr as [-> | ->]; rewrite Hissue; reflexivity.
Qed.

(** On success the verdict is the evaluation of the replayed, built
    history. *)
Lemma success_verdict w n st maintainers st1 resp raw :
  getCachedMaintainers w st = (Returned maintainers, st1) ->
  post_graphql w n = inr resp ->
  (resp_errors resp = None \/ resp_errors resp = Some []) ->
  response_issue resp = Some raw ->
  let issueAuthor := Js.nullish (d_author raw) "unknown" in
  getIssueState env w n st
  = (Returned
       (inl (issue_verdict env maintainers issueAuthor
               (Js.nullish (d_labels raw) [])
               (replayHistoryToFindState (built_history env raw)
                  maintainers issueAuthor)
               (built_labelEvents env raw)
               (built_lastBotAlertTime env raw)
               (utc_now w))),
     count_call st1).
Proof.
  intros Hm Hpost Herr Hissue issueAuthor.
  unfold getIssueState, try_catch, getIssueState_try, bind.
  rewrite Hm. unfold fetchGraphqlData, postRequest, bind. simpl.
  rewrite Hpost. simpl.
  unfold built_history, built_labelEvents, built_lastBotAlertTime.
  destruct Herr as [-> | ->]; rewrite Hissue; simpl;
    destruct (buildHistoryTimeline env raw) as [[h l] a]; reflexivity.
Qed.

End ToolFacts.

(** * Part IV: the code on concrete inputs *)

(** ** The sample issue, end to end *)

Example sample_parse :
  Sample.parse_utc "2024-01-01T00:00:00Z" = 1704067200000
  /\ Sample.parse_utc "1970-01-01T00:00:00Z" = 0.
Proof. split; reflexivity. Qed.

(** The agent's alert and the bot's edit leave no event, the comment sorts
    by its edit time, and the rename at the same instant stays behind it. *)
Example sample_history :
  buildHistoryTimeline Sample.env Sample.alice_issue
  = ([mkEvent created (Some "alice") 1704067200000 None;
      mkEvent commented (Some "bob") 1704240000000
        (Some "Could you share the logs?");
      mkEvent renamed_title (Some "carol") 1704240000000 None;
      mkEvent edited_description (Some "alice") 1704412800000 None],
     [1704196800000],
     Some 1704326400000).
Proof. reflexivity. Qed.

(** Alice's edit is later than the alert already posted, so a new alert is
    needed; the stale label is ten and a half days old. *)
Example sample_verdict :
  getIssueState Sample.env Sample.online 7 Sample.fresh
  = (Returned
       (inl {| v_status := "success";
               v_last_action_role := author;
               v_last_action_type := edited_description;
               v_last_actor_name := Some "alice";
               v_maintainer_alert_needed := true;
               v_is_stale := true;
               v_days_since_activity := Qmake 691200000 86400000;
               v_days_since_stale_label := Qmake 907200000 86400000;
               v_last_comment_text := None;
               v_current_labels := ["bug"; "stale"];
               v_stale_threshold_days := (168 / 24)%Q;
               v_close_threshold_days := (168 / 24)%Q;
               v_maintainers := ["bob"; "carol"];
               v_issue_author := "alice" |}),
     {| maintainersCache := Some ["bob"; "carol"]; apiCallCount := 2 |}).
Proof. reflexivity. Qed.

Example sample_not_found :
  getIssueState Sample.env Sample.online 8 Sample.fresh
  = (Returned (inr (errorResponse "Network Error: Issue #8 not found.")),
     {| maintainersCache := Some ["bob"; "carol"]; apiCallCount := 2 |}).
Proof. reflexivity. Qed.

(** The [created] event is sorted like any other: a comment stamped before
    the creation instant comes first. *)
Example created_is_not_pinned :
  built_history Sample.env
    {| d_author := Some "alice";
       d_createdAt := "2024-01-02T00:00:00Z";
       d_labels := None;
       d_comments :=
         Some [Some (mkComment (Some "bob") (Some "first")
                       "2024-01-01T00:00:00Z" None)];
       d_userContentEdits := None;
       d_timelineItems := None |}
  = [mkEvent commented (Some "bob") 1704067200000 (Some "first");
     mkEvent created (Some "alice") 1704153600000 None].
Proof. reflexivity. Qed.

(** ** The scenarios of the specification *)

(** Alice opens an issue, Bob (a maintainer) asks for clarification a day
    later, and nothing else happens: eight days after the comment the last
    actor is a maintainer, the issue has been idle for eight days, and it
    is not stale since nobody applied the label. *)
Example scenario_maintainer_asked :
  let data :=
    {| d_author := Some "alice";
       d_createdAt := "2024-01-01T00:00:00Z";
       d_labels := Some ["bug"];
       d_comments :=
         Some [Some (mkComment (Some "bob") (Some "Which version?")
                       "2024-01-02T00:00:00Z" None)];
       d_userContentEdits := Some [];
       d_timelineItems := Some [] |} in
  let state :=
    replayHistoryToFindState (built_history Sample.env data) ["bob"] "alice" in
  let v :=
    issue_verdict Sample.env ["bob"] "alice" ["bug"] state
      (built_labelEvents Sample.env data)
      (built_lastBotAlertTime Sample.env data)
      (Sample.parse_utc "2024-01-10T00:00:00Z") in
  v_last_action_role v = maintainer
  /\ v_last_comment_text v = Some "Which version?"
  /\ (v_days_since_activity v == 8)%Q
  /\ v_is_stale v = false
  /\ v_days_since_stale_label v = 0%Q
  /\ v_maintainer_alert_needed v = false.
Proof. repeat split. Qed.

(** The stale label was applied eight days ago. *)
Example scenario_stale_label :
  let state := mkState maintainer 1704153600000 commented (Some "ping")
                 (Some "bob") in
  let v :=
    issue_verdict Sample.env ["bob"] "alice" ["stale"] state
      [Sample.parse_utc "2024-01-03T00:00:00Z"] None
      (Sample.parse_utc "2024-01-11T00:00:00Z") in
  v_is_stale v = true /\ (v_days_since_stale_label v == 8)%Q.
Proof. split; reflexivity. Qed.

(** The label is on the issue but its application was not captured. *)
Example scenario_stale_label_not_captured :
  let state := mkState maintainer 1704153600000 commented (Some "ping")
                 (Some "bob") in
  let v :=
    issue_verdict Sample.env ["bob"] "alice" ["stale"] state [] None
      (Sample.parse_utc "2024-01-11T00:00:00Z") in
  v_is_stale v = true /\ v_days_since_stale_label v = 0%Q.
Proof. split; reflexivity. Qed.

(** A silent edit by the author asks for an alert until the agent has
    posted one after it. *)
Example scenario_silent_edit :
  let state := mkState author 1704412800000 edited_description None
                 (Some "alice") in
  maintainerAlertNeeded state None = true
  /\ maintainerAlertNeeded state (Some 1704326400000) = true
  /\ maintainerAlertNeeded state (Some 1704412800000) = true
  /\ maintainerAlertNeeded state (Some 1704499200000) = false.
Proof. repeat split. Qed.

(** ** Where the specification and the code part *)

(** C1, as the specification words it, fails for a final comment event
    that carries no text: the replayer copies [event.data ?? null]. *)
Lemma replay_comment_without_text_counterexample :
  let history :=
    [mkEvent created (Some "alice") 10 None;
     mkEvent commented (Some "bob") 20 None] in
  chronological history
  /\ ev_type (last history (mkEvent created None 0 None)) = commented
  /\ last_comment_text (replayHistoryToFindState history ["bob"] "alice")
     = None.
Proof.
  split.
  - repeat constructor. unfold time_le. simpl. lia.
  - split; reflexivity.
Qed.

(** C6, as the specification words it, fails for an empty login: the guard
    [actor && ...] treats the empty string like [null], so an empty actor
    listed among the maintainers is still [other_user]. *)
Lemma role_of_empty_login_counterexample :
  Some "" <> Some "alice"
  /\ In "" ["bob"; ""]
  /\ role_of ["bob"; ""] "alice" (Some "") = other_user.
Proof.
  split; [discriminate |]. split; [simpl; auto |]. reflexivity.
Qed.

(** C7, as the specification words it, fails for a comment whose author is
    present with an empty login: the guard [actor && ...] drops it, and
    the history holds the [created] event alone. *)
Lemma comment_empty_login_counterexample :
  d_comments Sample.nameless_issue = Some [Some Sample.nameless_comment]
  /\ c_author Sample.nameless_comment = Some ""
  /\ Js.endsWith "" "[bot]" = false
  /\ "" <> BOT_NAME
  /\ Js.includes BOT_ALERT_SIGNATURE
       (Js.nullish (c_body Sample.nameless_comment) "") = false
  /\ built_history Sample.env Sample.nameless_issue
     = [mkEvent created (Some "alice") 1704067200000 None].
Proof.
  repeat split; try reflexivity. discriminate.
Qed.

(** C4, as the specification words it, fails: with the collaborators
    request failing, [getIssueState] does not throw but returns an error
    response. *)
Lemma maintainer_failure_caught_counterexample :
  maintainersCache Sample.fresh = None
  /\ get_collaborators Sample.offline
     = inl (OtherError "Request failed with status code 503")
  /\ getIssueState Sample.env Sample.offline 7 Sample.fresh
     = (Returned
          (inr {| err_status := "error";
                  err_message :=
                    "Analysis Error: Maintainer verification failed. Processing aborted." |}),
        {| maintainersCache := None; apiCallCount := 1 |})
  /\ (forall e st,
        getIssueState Sample.env Sample.offline 7 Sample.fresh
        <> (Threw e, st)).
Proof.
  repeat split; try reflexivity. intros e st H. discriminate.
Qed.

(** ** The theorems with hypotheses, at the sample issue *)

Lemma comment_event_emitted_witness :
  exists e,
    In e (built_history Sample.env Sample.alice_issue)
    /\ ev_type e = commented
    /\ ev_actor e = Some "bob"
    /\ ev_data e = Some (Js.nullish (c_body Sample.bob_comment) "")
    /\ (forall s, c_lastEditedAt Sample.bob_comment = Some s -> s <> "" ->
          ev_time e = parseISO Sample.env s)
    /\ (c_lastEditedAt Sample.bob_comment = None
        \/ c_lastEditedAt Sample.bob_comment = Some "" ->
        ev_time e = parseISO Sample.env (c_createdAt Sample.bob_comment)).
Proof.
  apply (comment_event_emitted Sample.env Sample.alice_issue
           [Some Sample.bob_comment; None; Some Sample.bot_alert]
           Sample.bob_comment "bob").
  - reflexivity.
  - simpl. left. reflexivity.
  - reflexivity.
  - discriminate.
  - reflexivity.
  - discriminate.
  - reflexivity.
Defined.

Lemma maintainer_fetch_failure_is_reported_witness :
  getCachedMaintainers Sample.offline Sample.fresh
  = (Threw (OtherError maintainer_failure), count_call Sample.fresh)
  /\ getIssueState Sample.env Sample.offline 7 Sample.fresh
     = (Returned
          (inr {| err_status := "error";
                  err_message :=
                    "Analysis Error: Maintainer verification failed. Processing aborted." |}),
        count_call Sample.fresh)
  /\ maintainersCache (count_call Sample.fresh) = None.
Proof.
  apply (maintainer_fetch_failure_is_reported Sample.env Sample.offline 7
           Sample.fresh (OtherError "Request failed with status code 503")).
  - reflexivity.
  - reflexivity.
Defined.

(** * Part V: the pipeline as a whole *)

(** X1: the replayed state is decided by the last event alone: two
    histories that end in the same event replay to the same state, that
    of the one-event history. *)
Theorem replay_depends_on_last_event history e maintainers issueAuthor :
  replayHistoryToFindState (history ++ [e]) maintainers issueAuthor
  = replayHistoryToFindState [e] maintainers issueAuthor.
Proof.
  rewrite replay_last. change [e] with ([] ++ [e]). rewrite replay_last.
  reflexivity.
Qed.

Lemma flat_map_filter {A B} (f : A -> list B) (p : A -> bool) l :
  (forall x, p x = false -> f x = []) ->
  flat_map f (filter p l) = flat_map f l.
Proof.
  intros Hdrop. induction l as [| x l IH]; [reflexivity |].
  simpl. destruct (p x) eqn:Hp; simpl.
  - rewrite IH. reflexivity.
  - rewrite (Hdrop x Hp). exact IH.
Qed.

Section PipelineFacts.

Variable env : Env.

Lemma built_labelEvents_eq data :
  built_labelEvents env data
  = flat_map (stale_label_times env) (Js.nullish (d_timelineItems data) []).
Proof. unfold built_labelEvents. rewrite build_spec. reflexivity. Qed.

Lemma nullish_option_map {A} (f : list A -> list A) (o : option (list A)) :
  f [] = [] -> Js.nullish (option_map f o) [] = f (Js.nullish o []).
Proof. intros Hnil. destruct o; simpl; congruence. Qed.

(** X2: the activity instant the verdict is measured from is the latest
    instant among the creation and all user events of the issue, comments
    counting at their edit time. *)
Theorem last_activity_is_latest_pushed data maintainers issueAuthor :
  last_activity_time
    (replayHistoryToFindState (built_history env data) maintainers issueAuthor)
  = latest_time (created_event env data) (pushed_after_created env data).
Proof.
  destruct (exists_last (l := built_history env data)) as [h [e Hsplit]].
  { intros Hnil.
    pose proof (Permutation_length (built_history_Permutation env data)) as Hl.
    rewrite Hnil in Hl. discriminate. }
  pose proof (sort_by_time_chronological (pushed env data)) as Hs.
  rewrite <- built_history_eq, Hsplit in Hs.
  pose proof (chronological_last_is_latest h e Hs) as Hup.
  rewrite Hsplit, replay_last. simpl.
  unfold latest_time.
  pose proof (JsFacts.Math_max_In (map ev_time (pushed_after_created env data))
                (ev_time (created_event env data))) as Hin.
  pose proof (JsFacts.Math_max_upper
                (map ev_time (pushed_after_created env data))
                (ev_time (created_event env data))) as Hub.
  change (ev_time (created_event env data)
          :: map ev_time (pushed_after_created env data))
    with (map ev_time (pushed env data)) in Hin, Hub.
  apply in_map_iff in Hin as [x [Hx Hxin]].
  apply In_built_history in Hxin. rewrite Hsplit in Hxin.
  specialize (Hup x Hxin).
  assert (He : In e (pushed env data)).
  { apply In_built_history. rewrite Hsplit. apply in_or_app. right.
    left. reflexivity. }
  specialize (Hub (ev_time e) (in_map ev_time _ _ He)).
  lia.
Qed.

(** X3: for an issue nobody acted on after its creation, the last action
    is the creation and its role is [author] when the author is known; for
    an absent author the role is [other_user] and the actor [null], though
    the verdict names the author "unknown". *)
Theorem untouched_issue_role data maintainers :
  pushed_after_created env data = [] ->
  let issueAuthor := Js.nullish (d_author data) "unknown" in
  let st :=
    replayHistoryToFindState (built_history env data) maintainers issueAuthor in
  last_action_type st = created
  /\ last_activity_time st = parseISO env (d_createdAt data)
  /\ last_actor_name st = d_author data
  /\ last_action_role st
     = match d_author data with
       | Some _ => author
       | None => other_user
       end.
Proof.
  intros Hnone issueAuthor st. subst st issueAuthor.
  rewrite built_history_eq. unfold pushed. rewrite Hnone. simpl.
  unfold replayHistoryToFindState. simpl.
  repeat split. destruct (d_author data) as [a |]; simpl; [| reflexivity].
  rewrite String.eqb_refl. reflexivity.
Qed.

(** X4: [null] nodes and the comments, edits, renames and reopenings of
    bots, of the agent itself and of absent actors have no effect on the
    history nor on the label log: taking them out of the input changes
    neither. *)
Theorem automation_leaves_no_trace data :
  built_history env (without_automation data) = built_history env data
  /\ built_labelEvents env (without_automation data)
     = built_labelEvents env data.
Proof.
  rewrite !built_history_eq, !built_labelEvents_eq.
  unfold pushed, pushed_after_created, created_event. simpl.
  rewrite !nullish_option_map by reflexivity.
  rewrite !flat_map_filter; [split; reflexivity | | | |].
  - intros [t |] Hp; [| reflexivity]. simpl in *.
    apply orb_false_iff in Hp as [Hty _].
    destruct (t_typename t); try reflexivity. discriminate.
  - intros [t |] Hp; [| reflexivity]. simpl in *.
    apply orb_false_iff in Hp as [Hty Hh].
    destruct (t_typename t); try reflexivity; rewrite Hh; reflexivity.
  - intros [e |] Hp; [| reflexivity]. simpl in *. rewrite Hp. reflexivity.
  - intros [c |] Hp; [| reflexivity]. simpl in *. rewrite Hp.
    destruct (is_alert_comment c); reflexivity.
Qed.

(** X5: the label log holds exactly the instants of the label events that
    applied the stale label, whoever applied it; renames, reopenings and
    other labels never enter it. *)
Theorem label_log_membership data t :
  In t (built_labelEvents env data)
  <-> exists item,
        In (Some item) (Js.nullish (d_timelineItems data) [])
        /\ t_typename item = LabeledEvent
        /\ t_label item = Some (STALE_LABEL_NAME env)
        /\ parseISO env (t_createdAt item) = t.
Proof.
  rewrite built_labelEvents_eq, in_flat_map. split.
  - intros [node [Hnode Hin]]. destruct node as [item |]; [| contradiction].
    simpl in Hin. destruct (t_typename item) eqn:Hty; try contradiction.
    destruct (t_label item) as [name |] eqn:Hlabel; [| contradiction].
    destruct (String.eqb_spec name (STALE_LABEL_NAME env)) as [-> | Hne];
      [| contradiction].
    destruct Hin as [<- | []]. exists item. auto.
  - intros [item [Hnode [Hty [Hlabel <-]]]]. exists (Some item).
    split; [exact Hnode |]. simpl. rewrite Hty, Hlabel, String.eqb_refl.
    left. reflexivity.
Qed.

End PipelineFacts.

(** * Part VI: the maintainer cache and the request budget *)

(** X6: once a call of [getCachedMaintainers] has returned a list, the
    list is in the cache and every later call returns it without a
    request, whatever the network would answer (an empty list included). *)
Theorem maintainers_fetched_once w st fetched st' :
  getCachedMaintainers w st = (Returned fetched, st') ->
  maintainersCache st' = Some fetched
  /\ forall w', getCachedMaintainers w' st' = (Returned fetched, st').
Proof.
  intros Hcall.
  assert (Hcache : maintainersCache st' = Some fetched).
  { destruct (maintainersCache st) as [cached |] eqn:Hc.
    - rewrite (getCachedMaintainers_cached w st cached Hc) in Hcall.
      injection Hcall as <- <-. exact Hc.
    - destruct (get_collaborators w) as [e | users] eqn:Hget.
      + rewrite (getCachedMaintainers_failure w st e Hc Hget) in Hcall.
        discriminate.
      + rewrite (getCachedMaintainers_fetch w st users Hc Hget) in Hcall.
        injection Hcall as <- <-. reflexivity. }
  split; [exact Hcache |].
  intros w'. apply getCachedMaintainers_cached. exact Hcache.
Qed.

Lemma fetchGraphqlData_state env w n st :
  snd (fetchGraphqlData env w n st) = count_call st.
Proof.
  unfold fetchGraphqlData, postRequest, bind. simpl.
  destruct (post_graphql w n) as [e | response]; [reflexivity |]. simpl.
  destruct (resp_errors response) as [[| first rest] |];
    destruct (response_issue response); reflexivity.
Qed.

Lemma getIssueState_state env w n st :
  snd (getIssueState env w n st)
  = match getCachedMaintainers w st with
    | (Returned _, st1) => count_call st1
    | (Threw _, st1) => st1
    end.
Proof.
  unfold getIssueState, try_catch, getIssueState_try, bind.
  destruct (getCachedMaintainers w st) as [[m | e] st1].
  - pose proof (fetchGraphqlData_state env w n st1) as Hst.
    destruct (fetchGraphqlData env w n st1) as [[raw | e] st2];
      simpl in Hst; subst st2.
    + destruct (buildHistoryTimeline env raw) as [[h l] a]. reflexivity.
    + rewrite getIssueState_catch_eq. reflexivity.
  - rewrite getIssueState_catch_eq. reflexivity.
Qed.

(** X7: one evaluation sends one request when the maintainers are cached
    or their fetch fails, and two otherwise; a list fetched on the way
    stays cached whatever becomes of the issue query, and a cached list is
    never replaced. *)
Theorem getIssueState_request_budget env w n st :
  let st' := snd (getIssueState env w n st) in
  match maintainersCache st, get_collaborators w with
  | Some cached, _ =>
      maintainersCache st' = Some cached
      /\ apiCallCount st' = apiCallCount st + 1
  | None, inl _ =>
      maintainersCache st' = None
      /\ apiCallCount st' = apiCallCount st + 1
  | None, inr users =>
      maintainersCache st' = Some (map login users)
      /\ apiCallCount st' = apiCallCount st + 2
  end.
Proof.
  intros st'. subst st'. rewrite getIssueState_state.
  destruct (maintainersCache st) as [cached |] eqn:Hc.
  - rewrite (getCachedMaintainers_cached w st cached Hc). simpl. auto.
  - destruct (get_collaborators w) as [e | users] eqn:Hget.
    + rewrite (getCachedMaintainers_failure w st e Hc Hget). simpl. auto.
    + rewrite (getCachedMaintainers_fetch w st users Hc Hget). simpl.
      split; [reflexivity | lia].
Qed.

(** * Part VII: the side-effecting tools *)

Section ToolsFacts.

Variable env : Env.
Variables OWNER REPO : string.
Variable formatDays : Q -> string.
Variable String_of : Thrown -> string.
Variable server : Server.

Lemma call_post proc sent r :
  call server (fun a => postRequest (data_of a)) r (mkNet proc sent)
  = (match server sent r with
     | inr x => Returned (http_data x)
     | inl e => Threw e
     end,
     mkNet (count_call proc) (sent ++ [r])).
Proof.
  unfold call, postRequest, bind. simpl.
  destruct (server sent r); reflexivity.
Qed.

Lemma call_patch proc sent r :
  call server (fun a => patchRequest (data_of a)) r (mkNet proc sent)
  = (match server sent r with
     | inr x => Returned (http_data x)
     | inl e => Threw e
     end,
     mkNet (count_call proc) (sent ++ [r])).
Proof.
  unfold call, patchRequest, bind. simpl.
  destruct (server sent r); reflexivity.
Qed.

Lemma call_delete proc sent r :
  call server deleteRequest r (mkNet proc sent)
  = (match server sent r with
     | inr x =>
         Returned (if http_status x =? 204
                   then Deleted "success" "Deletion successful."
                   else DeleteData (http_data x))
     | inl e => Threw e
     end,
     mkNet (count_call proc) (sent ++ [r])).
Proof.
  unfold call, deleteRequest, bind. simpl.
  destruct (server sent r) as [e | x]; [reflexivity |].
  simpl. destruct (http_status x =? 204); reflexivity.
Qed.

(** X8: [closeAsStale] posts its comment first and asks for the closure
    only when the comment was accepted; it replies success exactly when
    both requests were accepted, and an error response otherwise, so a
    refused closure leaves the closing comment on an open issue. *)
Theorem closeAsStale_comment_then_close n ns :
  let comment_rq :=
    mkRequest POST (comments_url env OWNER REPO n)
      (CommentBody (closing_comment env formatDays)) in
  let close_rq := mkRequest PATCH (issue_url env OWNER REPO n) StateClosed in
  let commented := server (net_sent ns) comment_rq in
  let closed := server (net_sent ns ++ [comment_rq]) close_rq in
  exists reply ns',
    closeAsStale env OWNER REPO formatDays String_of server n ns
    = (Returned reply, ns')
    /\ net_sent ns'
       = net_sent ns
         ++ comment_rq :: (if accepted commented then [close_rq] else [])
    /\ (reply = success
        <-> accepted commented = true /\ accepted closed = true)
    /\ (forall e, commented = inl e ->
          reply = inr (errorResponse
                         ("Error closing issue: " ++ String_of e)%string))
    /\ (forall e, accepted commented = true -> closed = inl e ->
          reply = inr (errorResponse
                         ("Error closing issue: " ++ String_of e)%string)).
Proof.
  intros comment_rq close_rq commented closed.
  destruct ns as [proc sent].
  unfold closeAsStale, net_try, net_bind, post_comment.
  rewrite call_post. fold comment_rq. cbn [net_sent] in *.
  fold commented.
  destruct commented as [e | x] eqn:Hc; cbn [accepted].
  - eexists _, _. split; [reflexivity |]. cbn [net_sent].
    split; [reflexivity |]. split.
    + split; [discriminate | intros [H _]; discriminate].
    + split; [intros e' He'; injection He' as <-; reflexivity |].
      intros e' H. discriminate.
  - rewrite call_patch. fold close_rq. fold closed.
    destruct closed as [e | y] eqn:Hd.
    + eexists _, _. split; [reflexivity |]. cbn [net_sent].
      split; [rewrite <- app_assoc; reflexivity |]. split.
      * split; [discriminate | intros [_ H]; discriminate].
      * split; [intros e' He'; discriminate |].
        intros e' _ He'. injection He' as <-. reflexivity.
    + eexists _, _. split; [reflexivity |]. cbn [net_sent].
      split; [rewrite <- app_assoc; reflexivity |]. split.
      * split; [auto | reflexivity].
      * split; intros; discriminate.
Qed.

(** X9: [addStaleLabelAndComment] posts its comment first and applies the
    stale label only when the comment was accepted; it replies success
    exactly when both requests were accepted, so a refused label request
    leaves the stale comment on an issue without the label, and a refused
    comment leaves the issue untouched. *)
Theorem addStaleLabelAndComment_comment_then_label n ns :
  let comment_rq :=
    mkRequest POST (comments_url env OWNER REPO n)
      (CommentBody (stale_comment env formatDays)) in
  let label_rq :=
    mkRequest POST (labels_url env OWNER REPO n)
      (LabelNames [STALE_LABEL_NAME env]) in
  let commented := server (net_sent ns) comment_rq in
  let labelled := server (net_sent ns ++ [comment_rq]) label_rq in
  exists reply ns',
    addStaleLabelAndComment env OWNER REPO formatDays server n ns
    = (Returned reply, ns')
    /\ net_sent ns'
       = net_sent ns
         ++ comment_rq :: (if accepted commented then [label_rq] else [])
    /\ (reply = success
        <-> accepted commented = true /\ accepted labelled = true)
    /\ (forall e, commented = inl e ->
          reply = inr (errorResponse
                         ("Error marking issue as stale: "
                          ++ message_of e)%string))
    /\ (forall e, accepted commented = true -> labelled = inl e ->
          reply = inr (errorResponse
                         ("Error marking issue as stale: "
                          ++ message_of e)%string)).
Proof.
  intros comment_rq label_rq commented labelled.
  destruct ns as [proc sent].
  unfold addStaleLabelAndComment, net_try, net_bind, post_comment.
  rewrite call_post. fold comment_rq. cbn [net_sent] in *.
  fold commented.
  destruct commented as [e | x] eqn:Hc; cbn [accepted].
  - eexists _, _. split; [reflexivity |]. cbn [net_sent].
    split; [reflexivity |]. split.
    + split; [discriminate | intros [H _]; discriminate].
    + split; [intros e' He'; injection He' as <-; reflexivity |].
      intros e' H. discriminate.
  - rewrite call_post. fold label_rq. fold labelled.
    destruct labelled as [e | y] eqn:Hd.
    + eexists _, _. split; [reflexivity |]. cbn [net_sent].
      split; [rewrite <- app_assoc; reflexivity |]. split.
      * split; [discriminate | intros [_ H]; discriminate].
      * split; [intros e' He'; discriminate |].
        intros e' _ He'. injection He' as <-. reflexivity.
    + eexists _, _. split; [reflexivity |]. cbn [net_sent].
      split; [rewrite <- app_assoc; reflexivity |]. split.
      * split; [auto | reflexivity].
      * split; intros; discriminate.
Qed.

(** X10: [removeLabelFromIssue] sends one DELETE to the label's URL (the
    label name appended as it is) and replies success for every answer of
    the server, with status 204 or any other; only a thrown request gives
    an error response. *)
Theorem removeLabelFromIssue_any_answer n label_name ns :
  let delete_rq :=
    mkRequest DELETE
      (labels_url env OWNER REPO n ++ "/" ++ label_name)%string NoBody in
  let answer := server (net_sent ns) delete_rq in
  exists reply ns',
    removeLabelFromIssue env OWNER REPO String_of server n label_name ns
    = (Returned reply, ns')
    /\ net_sent ns' = net_sent ns ++ [delete_rq]
    /\ (forall x, answer = inr x -> reply = success)
    /\ (forall e, answer = inl e ->
          reply = inr (errorResponse
                         ("Error removing label: " ++ String_of e)%string)).
Proof.
  intros delete_rq answer. destruct ns as [proc sent].
  unfold removeLabelFromIssue, net_try, net_bind.
  rewrite call_delete. fold delete_rq. cbn [net_sent] in *. fold answer.
  destruct answer as [e | x] eqn:Ha.
  - eexists _, _. split; [reflexivity |]. cbn [net_sent].
    split; [reflexivity |]. split; [intros; discriminate |].
    intros e' He'. injection He' as <-. reflexivity.
  - eexists _, _. split; [reflexivity |]. cbn [net_sent].
    split; [reflexivity |]. split; [reflexivity | intros; discriminate].
Qed.

(** X11: none of the five tools ever throws, whatever the server answers;
    each only adds requests to those already sent, the API call counter
    grows by exactly the number of requests added (failed ones included),
    and the maintainer cache is left alone. *)
Theorem tools_return_and_count n label_name :
  tool_keeps_count
    (closeAsStale env OWNER REPO formatDays String_of server n)
  /\ tool_keeps_count (alertMaintainerOfEdit env OWNER REPO server n)
  /\ tool_keeps_count
       (addStaleLabelAndComment env OWNER REPO formatDays server n)
  /\ tool_keeps_count (addLabelToIssue env OWNER REPO server n label_name)
  /\ tool_keeps_count
       (removeLabelFromIssue env OWNER REPO String_of server n label_name).
Proof.
  unfold tool_keeps_count.
  repeat apply conj; intros [proc sent];
    unfold closeAsStale, alertMaintainerOfEdit, addStaleLabelAndComment,
      addLabelToIssue, removeLabelFromIssue, net_try, net_bind, post_comment;
    rewrite ?call_post, ?call_delete;
    destruct (server sent _) as [e | x];
    rewrite ?call_post, ?call_patch;
    try destruct (server (sent ++ _) _) as [e' | y];
    (eexists _, _, _; split; [reflexivity |]; cbn [net_sent net_proc];
     split; [rewrite <- ?app_assoc; reflexivity |];
     split; [cbn; lia | reflexivity]).
Qed.

(** X12: [alertMaintainerOfEdit] sends one request, a comment on the issue
    whose body contains the alert signature, and replies success exactly
    when the comment was accepted. *)
Theorem alertMaintainerOfEdit_posts_signature n ns :
  let alert_rq :=
    mkRequest POST (comments_url env OWNER REPO n) (CommentBody alert_comment) in
  let answer := server (net_sent ns) alert_rq in
  exists reply ns',
    alertMaintainerOfEdit env OWNER REPO server n ns = (Returned reply, ns')
    /\ net_sent ns' = net_sent ns ++ [alert_rq]
    /\ Js.includes BOT_ALERT_SIGNATURE alert_comment = true
    /\ (reply = success <-> accepted answer = true)
    /\ (forall e, answer = inl e ->
          reply = inr (errorResponse
                         ("Error posting alert: " ++ message_of e)%string)).
Proof.
  intros alert_rq answer. destruct ns as [proc sent].
  unfold alertMaintainerOfEdit, net_try, net_bind, post_comment.
  rewrite call_post. fold alert_rq. cbn [net_sent] in *. fold answer.
  destruct answer as [e | x] eqn:Ha; cbn [accepted].
  - eexists _, _. split; [reflexivity |]. cbn [net_sent].
    split; [reflexivity |]. split; [reflexivity |]. split.
    + split; discriminate.
    + intros e' He'. injection He' as <-. reflexivity.
  - eexists _, _. split; [reflexivity |]. cbn [net_sent].
    split; [reflexivity |]. split; [reflexivity |]. split.
    + split; reflexivity.
    + intros; discriminate.
Qed.

End ToolsFacts.

(** ** The comment text of a verdict *)

(** X24: on the history built from any raw issue, the replayed
    [last_comment_text] is non-null exactly when the last action is a
    comment, and the text reported never contains the alert signature. *)
Theorem built_history_comment_text (env : Env) data maintainers issueAuthor :
  let st :=
    replayHistoryToFindState (built_history env data) maintainers issueAuthor in
  (last_comment_text st <> None <-> last_action_type st = commented)
  /\ (forall text, last_comment_text st = Some text ->
        Js.includes BOT_ALERT_SIGNATURE text = false).
Proof.
  intros st. subst st.
  destruct (exists_last (l := built_history env data)) as [h [e Hsplit]].
  { intros Hnil.
    pose proof (Permutation_length (built_history_Permutation env data)) as Hl.
    rewrite Hnil in Hl. discriminate. }
  split.
  - rewrite (replay_of_built_history env data h e maintainers issueAuthor Hsplit).
    rewrite Hsplit, replay_last. reflexivity.
  - assert (Hin : In e (built_history env data)).
    { rewrite Hsplit. apply in_or_app. right. left. reflexivity. }
    rewrite Hsplit, replay_last. simpl. intros text Htext.
    destruct (EventType_eqb (ev_type e) commented) eqn:Hty; [| discriminate].
    apply EventType_eqb_eq in Hty.
    destruct (commented_in_history env data e Hin Hty) as [c [_ [Hno ->]]].
    simpl in Htext. injection Htext as <-. exact Hno.
Qed.

(** ** The alert, read back *)

Section AlertRoundTrip.

Variable env : Env.

Lemma pushed_data_is_comment data e text :
  In e (pushed env data) -> ev_data e = Some text -> ev_type e = commented.
Proof.
  intros Hin Hdata. destruct Hin as [<- | Hin]; [discriminate |].
  apply in_app_or in Hin as [Hin | Hin].
  - apply in_flat_map in Hin as [node [_ Hin]].
    pose proof (comment_events_actor env node) as Hall.
    rewrite Forall_forall in Hall. apply (Hall e Hin).
  - exfalso. apply in_app_or in Hin as [Hin | Hin];
      apply in_flat_map in Hin as [node [_ Hin]].
    + destruct node as [x |]; simpl in Hin; [| contradiction].
      destruct (human_actor (e_editor x)); [| contradiction].
      destruct Hin as [<- | []]. discriminate.
    + destruct node as [x |]; simpl in Hin; [| contradiction].
      destruct (t_typename x); [contradiction | |];
        (destruct (human_actor (t_actor x)); [| contradiction]);
        destruct Hin as [<- | []]; discriminate.
Qed.

(** X13: a comment with the body that [alertMaintainerOfEdit] posts,
    whoever its author, is read back as an alert: [lastBotAlertTime] is
    then at least its creation instant, no event of the history carries
    that body, and for every state whose last activity is earlier than the
    comment no further alert is needed. *)
Theorem posted_alert_suppresses_repeat data nodes c state :
  d_comments data = Some nodes ->
  In (Some c) nodes ->
  c_body c = Some alert_comment ->
  (exists t, built_lastBotAlertTime env data = Some t
             /\ parseISO env (c_createdAt c) <= t)
  /\ (forall e, In e (built_history env data) ->
        ev_data e <> Some alert_comment)
  /\ (last_activity_time state < parseISO env (c_createdAt c) ->
      maintainerAlertNeeded state (built_lastBotAlertTime env data) = false).
Proof.
  intros Hnodes Hin Hbody.
  assert (Halert : is_alert_comment c = true).
  { unfold is_alert_comment. rewrite Hbody. reflexivity. }
  assert (Hlast : exists t, built_lastBotAlertTime env data = Some t
                            /\ parseISO env (c_createdAt c) <= t).
  { unfold built_lastBotAlertTime. rewrite build_spec. cbn [snd].
    rewrite Hnodes. cbn [Js.nullish].
    assert (Hmem : In (parseISO env (c_createdAt c)) (alert_times env nodes)).
    { unfold alert_times. apply in_flat_map. exists (Some c).
      split; [exact Hin |]. rewrite Halert. left. reflexivity. }
    destruct (alert_times env nodes) as [| t0 ts] eqn:Hts; [contradiction |].
    exists (Js.Math_max t0 ts). split; [reflexivity |].
    apply JsFacts.Math_max_upper. exact Hmem. }
  split; [exact Hlast |]. split.
  - intros e He Hdata.
    assert (Hty : ev_type e = commented).
    { apply In_built_history in He.
      eapply pushed_data_is_comment; eassumption. }
    destruct (commented_in_history env data e He Hty) as [c' [_ [Hno ->]]].
    simpl in Hdata. injection Hdata as Hdata.
    unfold is_alert_comment in Hno. rewrite Hdata in Hno. discriminate.
  - intros Hbefore. destruct Hlast as [t [-> Hle]].
    apply not_true_is_false. intros Hneed.
    apply maintainerAlertNeeded_iff in Hneed as [_ [_ Hno]].
    apply Hno. exists t. split; [reflexivity | lia].
Qed.

End AlertRoundTrip.

(** * Part VIII: listing the old open issues *)

Section SearchFacts.

Variable search : Z -> Thrown + GitHubSearchIssuesResponse.

Lemma In_page_numbers found n :
  In n (page_numbers found)
  <-> exists item, In item found /\ gi_pull_request item = false
                   /\ gi_number item = n.
Proof.
  unfold page_numbers. rewrite in_map_iff. split.
  - intros [item [Hn Hin]]. apply filter_In in Hin as [Hin Hpr].
    apply negb_true_iff in Hpr. eauto.
  - intros [item [Hin [Hpr Hn]]]. exists item. split; [exact Hn |].
    apply filter_In. split; [exact Hin |]. rewrite Hpr. reflexivity.
Qed.

Lemma search_loop_sound fuel : forall page acc st result st',
  search_loop search fuel page acc st = Some (result, st') ->
  exists added,
    result = acc ++ added
    /\ forall n, In n added ->
         exists p data item,
           page <= p /\ search p = inr data
           /\ In item (Js.nullish (items data) [])
           /\ gi_pull_request item = false /\ gi_number item = n.
Proof.
  induction fuel as [| fuel IH]; intros page acc st result st' Hrun;
    [discriminate |].
  simpl in Hrun. unfold getRequest, bind in Hrun. simpl in Hrun.
  destruct (search page) as [e | data] eqn:Hpage; simpl in Hrun.
  - injection Hrun as <- _. exists []. split; [now rewrite app_nil_r |].
    intros n [].
  - assert (Hhere : forall n,
              In n (page_numbers (Js.nullish (items data) [])) ->
              exists p data0 item,
                page <= p /\ search p = inr data0
                /\ In item (Js.nullish (items data0) [])
                /\ gi_pull_request item = false /\ gi_number item = n).
    { intros n Hn. apply In_page_numbers in Hn as [item [Hin [Hpr Hnum]]].
      exists page, data, item. repeat split; try assumption. lia. }
    destruct (List.length (Js.nullish (items data) []) =? 0)%nat.
    + injection Hrun as <- _. exists []. split; [now rewrite app_nil_r |].
      intros n [].
    + destruct (List.length (Js.nullish (items data) []) <? 100)%nat.
      * injection Hrun as <- _. eexists. split; [reflexivity | exact Hhere].
      * apply IH in Hrun as [added [-> Hadded]].
        exists (page_numbers (Js.nullish (items data) []) ++ added).
        split; [now rewrite app_assoc |].
        intros n Hn. apply in_app_or in Hn as [Hn | Hn].
        -- apply Hhere. exact Hn.
        -- destruct (Hadded n Hn) as [p [d [item [Hp Hrest]]]].
           exists p, d, item. split; [lia | exact Hrest].
Qed.

(** X14: every number [getOldOpenIssueNumbers] returns is the number of an
    item that is not a pull request, found on a page of the search that
    was answered; a pull request's number is never returned on its own
    account. *)
Theorem search_returns_issues_only fuel st result st' :
  getOldOpenIssueNumbers search fuel st = Some (result, st') ->
  forall n, In n result ->
    exists p data item,
      1 <= p /\ search p = inr data
      /\ In item (Js.nullish (items data) [])
      /\ gi_pull_request item = false /\ gi_number item = n.
Proof.
  intros Hrun n Hn. unfold getOldOpenIssueNumbers in Hrun.
  apply search_loop_sound in Hrun as [added [-> Hadded]].
  apply Hadded. exact Hn.
Qed.

Lemma search_loop_pages (full : list (list GitHubIssueItem)) :
  forall page acc st fuel last_answer,
  (forall i found, nth_error full i = Some found ->
     (100 <= List.length found)%nat
     /\ exists tc, search (page + Z.of_nat i) = inr (mkSearch tc (Some found))) ->
  search (page + Z.of_nat (List.length full)) = last_answer ->
  match last_answer with
  | inr data => (List.length (Js.nullish (items data) []) < 100)%nat
  | inl _ => True
  end ->
  (List.length full < fuel)%nat ->
  search_loop search fuel page acc st
  = Some (acc ++ flat_map page_numbers full
          ++ match last_answer with
             | inr data => page_numbers (Js.nullish (items data) [])
             | inl _ => []
             end,
          {| maintainersCache := maintainersCache st;
             apiCallCount :=
               apiCallCount st + Z.of_nat (List.length full) + 1 |}).
Proof.
  induction full as [| found full IH];
    intros page acc st fuel last_answer Hfull Hlast Hshort Hfuel.
  - destruct fuel as [| fuel]; [simpl in Hfuel; lia |].
    simpl in Hlast. rewrite Z.add_0_r in Hlast.
    simpl. unfold getRequest, bind. simpl. rewrite Hlast.
    assert (Hst : count_call st
                  = {| maintainersCache := maintainersCache st;
                       apiCallCount := apiCallCount st + 0 + 1 |}).
    { unfold count_call. f_equal. lia. }
    rewrite <- Hst.
    destruct last_answer as [e | data]; simpl.
    + rewrite app_nil_r. reflexivity.
    + destruct (Js.nullish (items data) []) as [| item found] eqn:Hitems.
      * simpl. rewrite app_nil_r. reflexivity.
      * apply Nat.ltb_lt in Hshort. cbn [List.length Nat.eqb] in *.
        rewrite Hshort. reflexivity.
  - destruct fuel as [| fuel]; [simpl in Hfuel; lia |].
    destruct (Hfull 0%nat found eq_refl) as [Hlen [tc Hpage]].
    rewrite Z.add_0_r in Hpage.
    simpl. unfold getRequest, bind. simpl. rewrite Hpage. simpl.
    destruct (List.length found) as [| k] eqn:Hk; [lia |].
    simpl. destruct (Nat.ltb_spec (S k) 100) as [Hlt | _]; [lia |].
    rewrite (IH (page + 1) (acc ++ page_numbers found) (count_call st) fuel
               last_answer).
    + rewrite <- !app_assoc. f_equal. f_equal.
      unfold count_call. simpl. f_equal. lia.
    + intros i f Hi. destruct (Hfull (S i) f Hi) as [Hl [tc' Hp]].
      split; [exact Hl |]. exists tc'. rewrite <- Hp. f_equal. lia.
    + rewrite <- Hlast. f_equal. simpl List.length. lia.
    + exact Hshort.
    + simpl in Hfuel. lia.
Qed.

(** X15: when the pages 1 to k are full (a hundred items or more) and page
    k+1 is short, empty or fails, the function returns, in page order, the
    issue numbers of those pages (page k+1 included when it was answered),
    after exactly k+1 requests; a failed page is not reported, so a search
    that fails at once returns the empty list like a search without
    results. *)
Theorem search_reads_until_short_page (full : list (list GitHubIssueItem))
    last_answer st fuel :
  (forall i found, nth_error full i = Some found ->
     (100 <= List.length found)%nat
     /\ exists tc, search (1 + Z.of_nat i) = inr (mkSearch tc (Some found))) ->
  search (1 + Z.of_nat (List.length full)) = last_answer ->
  match last_answer with
  | inr data => (List.length (Js.nullish (items data) []) < 100)%nat
  | inl _ => True
  end ->
  (List.length full < fuel)%nat ->
  getOldOpenIssueNumbers search fuel st
  = Some (flat_map page_numbers full
          ++ match last_answer with
             | inr data => page_numbers (Js.nullish (items data) [])
             | inl _ => []
             end,
          {| maintainersCache := maintainersCache st;
             apiCallCount :=
               apiCallCount st + Z.of_nat (List.length full) + 1 |}).
Proof.
  intros Hfull Hlast Hshort Hfuel. unfold getOldOpenIssueNumbers.
  rewrite (search_loop_pages full 1 [] st fuel last_answer); auto.
Qed.

Lemma search_loop_endless fuel : forall page acc st,
  (forall p, page <= p ->
     exists data, search p = inr data
                  /\ (100 <= List.length (Js.nullish (items data) []))%nat) ->
  search_loop search fuel page acc st = None.
Proof.
  induction fuel as [| fuel IH]; intros page acc st Hfull; [reflexivity |].
  destruct (Hfull page (Z.le_refl _)) as [data [Hpage Hlen]].
  simpl. unfold getRequest, bind. simpl. rewrite Hpage. simpl.
  destruct (List.length (Js.nullish (items data) [])) as [| k]; [lia |].
  simpl. destruct (Nat.ltb_spec (S k) 100) as [Hlt | _]; [lia |].
  apply IH. intros p Hp. apply Hfull. lia.
Qed.

(** X16: the loop has no page limit of its own: against a search that
    answers every page with a hundred items or more it never returns. *)
Theorem search_never_ends_on_full_pages st :
  (forall p, 1 <= p ->
     exists data, search p = inr data
                  /\ (100 <= List.length (Js.nullish (items data) []))%nat) ->
  forall fuel, getOldOpenIssueNumbers search fuel st = None.
Proof.
  intros Hfull fuel. apply search_loop_endless. exact Hfull.
Qed.

End SearchFacts.

(** * Part IX: the batches of the driver *)

Lemma slice_chunk {A} (l : list A) i limit :
  0 <= i -> i < Z.of_nat (List.length l) -> 1 <= limit ->
  JsMore.slice l i (i + limit)
  = firstn (Z.to_nat limit) (skipn (Z.to_nat i) l).
Proof.
  intros Hi Hlen Hlimit. unfold JsMore.slice.
  destruct (Z.ltb_spec i 0) as [Hneg | _]; [lia |].
  destruct (Z.ltb_spec (i + limit) 0) as [Hneg | _]; [lia |].
  rewrite (Z.min_l i) by lia. rewrite Z.max_l by lia.
  destruct (Z.le_gt_cases (i + limit) (Z.of_nat (List.length l)))
    as [Hfit | Hover].
  - rewrite Z.min_l by lia. f_equal. f_equal. lia.
  - rewrite Z.min_r by lia.
    rewrite !firstn_all2; [reflexivity | |]; rewrite length_skipn; lia.
Qed.

Lemma main_loop_acc fuel limit l : forall i processedCount steps,
  main_loop fuel limit l i processedCount steps
  = match main_loop fuel limit l i 0 [] with
    | Some (more, count) => Some (steps ++ more, processedCount + count)
    | None => None
    end.
Proof.
  induction fuel as [| fuel IH]; intros i p steps; [reflexivity |].
  simpl. destruct (i <? Z.of_nat (List.length l)).
  - rewrite (IH (i + limit) (p + _) _).
    rewrite (IH (i + limit) (Z.of_nat _) (if _ : bool then _ else _)).
    destruct (main_loop fuel limit l (i + limit) 0 []) as [[more count] |];
      [| reflexivity].
    f_equal. f_equal.
    + destruct (i + limit <? Z.of_nat (List.length l)); simpl;
        rewrite <- ?app_assoc; reflexivity.
    + lia.
  - rewrite app_nil_r, Z.add_0_r. reflexivity.
Qed.

Lemma main_loop_spec limit (l : list Z) :
  1 <= limit ->
  forall fuel i,
  0 <= i ->
  Z.max (Z.of_nat (List.length l) - i) 0 < Z.of_nat fuel ->
  exists steps,
    main_loop fuel limit l i 0 [] 
    = Some (steps, Z.max (Z.of_nat (List.length l) - i) 0)
    /\ List.concat (chunks_of steps) = skipn (Z.to_nat i) l
    /\ Forall (fun chunk =>
                 1 <= Z.of_nat (List.length chunk) <= limit)
         (chunks_of steps)
    /\ Forall (fun chunk => Z.of_nat (List.length chunk) = limit)
         (removelast (chunks_of steps))
    /\ steps = with_sleeps (chunks_of steps)
    /\ (Z.of_nat (List.length l) <= i -> steps = [])
    /\ (i < Z.of_nat (List.length l) -> chunks_of steps <> []).
Proof.
  intros Hlimit. induction fuel as [| fuel IH]; intros i Hi Hfuel; [lia |].
  simpl main_loop.
  destruct (Z.ltb_spec i (Z.of_nat (List.length l))) as [Hlt | Hge].
  - destruct (IH (i + limit)) as [rest [Hrun [Hcat [Hsize [Hfull [Halt
                                   [Hnone Hsome]]]]]]]; [lia | lia |].
    rewrite main_loop_acc, Hrun. rewrite slice_chunk by lia.
    set (chunk := firstn (Z.to_nat limit) (skipn (Z.to_nat i) l)) in *.
    assert (Hchunk : Z.of_nat (List.length chunk)
                     = Z.min limit (Z.of_nat (List.length l) - i)).
    { unfold chunk. rewrite length_firstn, length_skipn. lia. }
    destruct (Z.ltb_spec (i + limit) (Z.of_nat (List.length l)))
      as [Hmore | Hlast].
    + exists (Analyse chunk :: Sleep :: rest). split.
      { simpl. f_equal. f_equal. lia. }
      specialize (Hsome Hmore). simpl.
      split.
      { rewrite Hcat. unfold chunk.
        replace (Z.to_nat (i + limit))
          with (Z.to_nat limit + Z.to_nat i)%nat by lia.
        rewrite <- skipn_skipn. apply firstn_skipn. }
      split; [constructor; [lia | exact Hsize] |].
      split.
      { destruct (chunks_of rest) as [| c cs]; [congruence |].
        constructor; [lia | exact Hfull]. }
      split.
      { destruct (chunks_of rest) as [| c cs] eqn:Hcs; [congruence |].
        rewrite Halt at 1. reflexivity. }
      split; [lia | discriminate].
    + rewrite (Hnone Hlast). exists [Analyse chunk]. split.
      { simpl. f_equal. f_equal. lia. }
      simpl. split.
      { rewrite app_nil_r. unfold chunk. apply firstn_all2.
        rewrite length_skipn. lia. }
      split; [repeat constructor; lia |].
      split; [constructor |].
      split; [reflexivity |].
      split; [lia | discriminate].
  - exists []. split; [f_equal; f_equal; lia |]. simpl.
    split; [symmetry; apply skipn_all2; lia |].
    repeat split; try constructor; auto. lia.
Qed.

(** X17: with a concurrency limit of one or more the loop of [main] ends
    and every issue is analysed exactly once in list order: the chunks put
    end to end are the issue list, each holds between one and the limit
    issues, every chunk but the last holds exactly the limit, and the
    count of processed issues is the length of the list. *)
Theorem main_batches_partition limit (allIssues : list Z) fuel :
  1 <= limit ->
  (List.length allIssues < fuel)%nat ->
  exists steps,
    main_batches fuel limit allIssues
    = Some (steps, Z.of_nat (List.length allIssues))
    /\ List.concat (chunks_of steps) = allIssues
    /\ Forall (fun chunk =>
                 1 <= Z.of_nat (List.length chunk) <= limit)
         (chunks_of steps)
    /\ Forall (fun chunk => Z.of_nat (List.length chunk) = limit)
         (removelast (chunks_of steps)).
Proof.
  intros Hlimit Hfuel. unfold main_batches.
  destruct allIssues as [| n rest] eqn:Hl.
  - exists []. simpl. repeat split; constructor.
  - rewrite <- Hl in *. cbn [Nat.eqb]. 
    replace (List.length allIssues =? 0)%nat with false
      by (subst; reflexivity).
    destruct (main_loop_spec limit allIssues Hlimit fuel 0)
      as [steps [Hrun [Hcat [Hsize [Hfull _]]]]]; [lia | lia |].
    exists steps. rewrite Hrun.
    split; [f_equal; f_equal; lia |].
    split; [exact Hcat |]. split; assumption.
Qed.

(** X18: with a concurrency limit of one or more the driver sleeps after
    every chunk but the last and at no other time, so a run of [k] chunks
    sleeps [k - 1] times and a single chunk is analysed without a sleep. *)
Theorem main_sleeps_between_chunks limit (allIssues : list Z) fuel :
  1 <= limit ->
  (List.length allIssues < fuel)%nat ->
  exists steps count,
    main_batches fuel limit allIssues = Some (steps, count)
    /\ steps = with_sleeps (chunks_of steps)
    /\ sleeps_of steps = pred (List.length (chunks_of steps)).
Proof.
  intros Hlimit Hfuel.
  assert (Hsleeps : forall chunks,
            sleeps_of (with_sleeps chunks) = pred (List.length chunks)).
  { induction chunks as [| c [| c' cs] IH]; try reflexivity.
    change (with_sleeps (c :: c' :: cs))
      with (Analyse c :: Sleep :: with_sleeps (c' :: cs)).
    cbn [sleeps_of]. rewrite IH. reflexivity. }
  unfold main_batches.
  destruct allIssues as [| n rest] eqn:Hl.
  - exists [], 0. simpl. repeat split.
  - rewrite <- Hl in *.
    replace (List.length allIssues =? 0)%nat with false
      by (subst; reflexivity).
    destruct (main_loop_spec limit allIssues Hlimit fuel 0)
      as [steps [Hrun [_ [_ [_ [Halt _]]]]]]; [lia | lia |].
    exists steps, (Z.max (Z.of_nat (List.length allIssues) - 0) 0).
    split; [exact Hrun |]. split; [exact Halt |].
    rewrite Halt at 1. apply Hsleeps.
Qed.

Lemma main_loop_stuck limit (l : list Z) fuel :
  limit <= 0 ->
  forall i processedCount steps,
  i < Z.of_nat (List.length l) ->
  main_loop fuel limit l i processedCount steps = None.
Proof.
  intros Hlimit. induction fuel as [| fuel IH]; intros i p steps Hi;
    [reflexivity |].
  simpl. destruct (Z.ltb_spec i (Z.of_nat (List.length l))); [| lia].
  apply IH. lia.
Qed.

(** X19: with a concurrency limit of zero or less and at least one issue
    to process the loop of [main] never ends: the index never reaches the
    end of the list. *)
Theorem main_never_ends_without_limit limit (allIssues : list Z) :
  limit <= 0 ->
  allIssues <> [] ->
  forall fuel, main_batches fuel limit allIssues = None.
Proof.
  intros Hlimit Hne fuel. unfold main_batches.
  destruct allIssues as [| n rest]; [congruence |].
  cbn [List.length Nat.eqb]. apply main_loop_stuck; [exact Hlimit |].
  simpl List.length. lia.
Qed.

(** * Part X: the assignment workflow *)

Lemma assign_member assigneesList n :
  0 <= n -> assigneesList <> [] ->
  exists a,
    assign assigneesList n = addAssignees n [Some a]
    /\ nth_error assigneesList
         (Z.to_nat (n mod Z.of_nat (List.length assigneesList))) = Some a
    /\ In a assigneesList.
Proof.
  intros Hn Hne. unfold assign.
  destruct assigneesList as [| a0 rest] eqn:Hl; [congruence |].
  rewrite <- Hl in *.
  assert (Hlen : 0 < Z.of_nat (List.length assigneesList))
    by (subst; simpl List.length; lia).
  replace (List.length assigneesList =? 0)%nat with false
    by (subst; reflexivity).
  rewrite Z.rem_mod_nonneg by lia.
  pose proof (Z.mod_pos_bound n _ Hlen) as Hbound.
  unfold JsMore.index.
  destruct (Z.ltb_spec (n mod Z.of_nat (List.length assigneesList)) 0);
    [lia |].
  destruct (nth_error assigneesList
              (Z.to_nat (n mod Z.of_nat (List.length assigneesList))))
    as [a |] eqn:Hnth.
  - exists a. repeat split. eapply nth_error_In. exact Hnth.
  - apply nth_error_None in Hnth. lia.
Qed.


(** X21: the assignment rotates: among any run of consecutive
    non-negative issue numbers as long as the assignee list, every member
    of the list is assigned one. *)
Theorem auto_assignment_rotates issues prs pr a start :
  In a issues -> 0 <= start ->
  exists n,
    start <= n < start + Z.of_nat (List.length issues)
    /\ auto_assignment issues prs (mkPayload (Some n) pr)
       = addAssignees n [Some a].
Proof.
  intros Hin Hstart.
  destruct (In_nth_error _ _ Hin) as [j Hj].
  assert (Hjlen : (j < List.length issues)%nat).
  { apply nth_error_Some. congruence. }
  set (len := Z.of_nat (List.length issues)).
  assert (Hlen : 0 < len) by (unfold len; lia).
  set (n := start + (Z.of_nat j - start) mod len).
  pose proof (Z.mod_pos_bound (Z.of_nat j - start) len Hlen) as Hb.
  assert (Hmod : n mod len = Z.of_nat j).
  { unfold n. rewrite Zplus_mod_idemp_r.
    replace (start + (Z.of_nat j - start)) with (Z.of_nat j) by lia.
    apply Z.mod_small. unfold len. lia. }
  exists n. split; [unfold n; lia |].
  unfold auto_assignment. cbn [payload_issue].
  destruct (assign_member issues n) as [a' [Hcall [Hnth _]]].
  - unfold n. lia.
  - intros ->. destruct Hin.
  - fold len in Hnth. rewrite Hmod, Nat2Z.id, Hj in Hnth.
    injection Hnth as <-. exact Hcall.
Qed.

(** * Part XI: prompt templating *)

Section FormatPromptFacts.

Variable vars : string -> option string.

Lemma take_word_spec s : forall word rest,
  take_word s = (word, rest) -> s = (word ++ rest)%string.
Proof.
  induction s as [| c s IH]; intros word rest H; simpl in H.
  - injection H as <- <-. reflexivity.
  - destruct (JsMore.is_word c).
    + destruct (take_word s) as [w r]. injection H as <- <-.
      simpl. f_equal. apply IH. reflexivity.
    + injection H as <- <-. reflexivity.
Qed.

Lemma match_placeholder_Some s key rest :
  match_placeholder s = Some (key, rest) ->
  s = ("{" ++ key ++ "}" ++ rest)%string /\ key <> "".
Proof.
  unfold match_placeholder. destruct s as [| c s]; [discriminate |].
  destruct (Ascii.eqb_spec c "{"%char) as [-> | Hne].
  - destruct (take_word s) as [w r] eqn:Hw.
    apply take_word_spec in Hw.
    destruct w as [| c1 w]; [discriminate |].
    destruct r as [| c2 r]; [discriminate |].
    destruct (Ascii.eqb_spec c2 "}"%char) as [-> | Hne2].
    + intros H. injection H as <- <-. subst s. split; [| discriminate].
      simpl. f_equal.
    + intros H. exfalso. revert H.
      destruct c2 as [[] [] [] [] [] [] [] []]; try discriminate.
      congruence.
  - intros H. exfalso. revert H.
    destruct c as [[] [] [] [] [] [] [] []]; try discriminate.
    congruence.
Qed.

Lemma length_app_string a b :
  String.length (a ++ b) = (String.length a + String.length b)%nat.
Proof. induction a as [| c a IH]; simpl; [reflexivity | now rewrite IH]. Qed.

Lemma append_assoc_string a b c :
  ((a ++ b) ++ c)%string = (a ++ b ++ c)%string.
Proof. induction a as [| x a IH]; simpl; [reflexivity | now rewrite IH]. Qed.

Lemma match_placeholder_shorter s key rest :
  match_placeholder s = Some (key, rest) ->
  (String.length rest < String.length s)%nat.
Proof.
  intros H. apply match_placeholder_Some in H as [-> _].
  simpl. rewrite !length_app_string. simpl. lia.
Qed.

(** Any fuel that covers the text gives the same result. *)
Lemma replace_placeholders_fuel fuel1 : forall fuel2 s,
  (String.length s <= fuel1)%nat -> (String.length s <= fuel2)%nat ->
  replace_placeholders vars fuel1 s = replace_placeholders vars fuel2 s.
Proof.
  induction fuel1 as [| fuel1 IH]; intros fuel2 s H1 H2.
  - destruct s; [| simpl in H1; lia]. destruct fuel2; reflexivity.
  - destruct fuel2 as [| fuel2].
    + destruct s; [reflexivity | simpl in H2; lia].
    + destruct s as [| c s]; [reflexivity |].
      cbn [replace_placeholders].
      destruct (match_placeholder (String c s)) as [[key rest] |] eqn:Hm.
      * apply match_placeholder_shorter in Hm. f_equal.
        apply IH; simpl in *; lia.
      * f_equal. apply IH; simpl in *; lia.
Qed.

(** The scan, one step at a time. *)
Lemma formatPrompt_step c s :
  formatPrompt vars (String c s)
  = match match_placeholder (String c s) with
    | Some (key, rest) => (replacement vars key ++ formatPrompt vars rest)%string
    | None => String c (formatPrompt vars s)
    end.
Proof.
  unfold formatPrompt. cbn [String.length replace_placeholders].
  destruct (match_placeholder (String c s)) as [[key rest] |] eqn:Hm.
  - apply match_placeholder_shorter in Hm. f_equal.
    apply replace_placeholders_fuel; simpl in *; lia.
  - reflexivity.
Qed.




Lemma take_word_before_brace pre s0 :
  take_word (pre ++ String "{"%char s0)
  = let '(word, rest) := take_word pre in
    (word, (rest ++ String "{"%char s0)%string).
Proof.
  induction pre as [| c pre IH]; simpl.
  - reflexivity.
  - destruct (JsMore.is_word c); [| reflexivity].
    rewrite IH. destruct (take_word pre). reflexivity.
Qed.

Lemma match_placeholder_before_brace c pre s0 :
  match_placeholder (String c (pre ++ String "{"%char s0))
  = match match_placeholder (String c pre) with
    | Some (key, rest) => Some (key, (rest ++ String "{"%char s0)%string)
    | None => None
    end.
Proof.
  unfold match_placeholder.
  destruct (Ascii.eqb_spec c "{"%char) as [-> | Hne].
  - rewrite take_word_before_brace.
    destruct (take_word pre) as [[| c1 w] [| c2 r]]; simpl; try reflexivity.
    destruct c2 as [[] [] [] [] [] [] [] []]; reflexivity.
  - destruct c as [[] [] [] [] [] [] [] []]; try reflexivity; congruence.
Qed.

Lemma formatPrompt_before_brace s0 : forall n pre,
  (String.length pre <= n)%nat ->
  formatPrompt vars (pre ++ String "{"%char s0)
  = (formatPrompt vars pre ++ formatPrompt vars (String "{"%char s0))%string.
Proof.
  induction n as [| n IH]; intros pre Hlen.
  - destruct pre; [reflexivity | simpl in Hlen; lia].
  - destruct pre as [| c pre]; [reflexivity |].
    change (String c pre ++ String "{"%char s0)%string
      with (String c (pre ++ String "{"%char s0)).
    rewrite (formatPrompt_step c (pre ++ String "{"%char s0)).
    rewrite (formatPrompt_step c pre).
    rewrite match_placeholder_before_brace.
    destruct (match_placeholder (String c pre)) as [[key rest] |] eqn:Hm.
    + apply match_placeholder_shorter in Hm.
      rewrite IH by (simpl in *; lia).
      rewrite append_assoc_string. reflexivity.
    + rewrite IH by (simpl in *; lia). reflexivity.
Qed.

Lemma take_word_key key post :
  all_word key = true ->
  take_word (key ++ String "}"%char post) = (key, String "}"%char post).
Proof.
  induction key as [| c key IH]; intros Hall; simpl.
  - reflexivity.
  - simpl in Hall. apply andb_true_iff in Hall as [Hc Hall].
    rewrite Hc, IH by exact Hall. reflexivity.
Qed.

(** X23: a placeholder [{key}] with a non-empty key of word characters is
    replaced by the value of [key] (or left as it is when [key] is
    unknown) wherever it stands: the text before it and the text after it
    are formatted on their own, and the value put in is not scanned
    again. *)
Theorem formatPrompt_replaces_placeholder pre key post :
  key <> "" ->
  all_word key = true ->
  formatPrompt vars (pre ++ "{" ++ key ++ "}" ++ post)
  = (formatPrompt vars pre ++ replacement vars key
     ++ formatPrompt vars post)%string.
Proof.
  intros Hne Hall.
  change ("{" ++ key ++ "}" ++ post)%string
    with (String "{"%char (key ++ String "}"%char post)).
  rewrite (formatPrompt_before_brace _ (String.length pre)) by lia.
  f_equal. rewrite formatPrompt_step.
  unfold match_placeholder. rewrite take_word_key by exact Hall.
  destruct key as [| c key]; [congruence | reflexivity].
Qed.

End FormatPromptFacts.

(** * Part XII: the added code on concrete inputs *)

Example ghost_issue_verdict :
  let st :=
    replayHistoryToFindState (built_history Sample.env Cases.ghost_issue)
      ["bob"] (Js.nullish (d_author Cases.ghost_issue) "unknown") in
  last_action_role st = other_user /\ last_actor_name st = None.
Proof. split; reflexivity. Qed.

(** The closure is refused: the comment stays, the reply is an error. *)
Example close_refused :
  closeAsStale Sample.env "acme" "tools" Cases.formatDays Cases.String_of
    Cases.comments_only 7 Cases.idle
  = (Returned
       (inr (errorResponse
               "Error closing issue: Error: Request failed with status code 403")),
     {| net_proc := {| maintainersCache := None; apiCallCount := 2 |};
        net_sent :=
          [mkRequest POST
             "https://api.github.com/repos/acme/tools/issues/7/comments"
             (CommentBody
                "This has been automatically closed because it has been marked as stale for over 7 days.");
           mkRequest PATCH "https://api.github.com/repos/acme/tools/issues/7"
             StateClosed] |}).
Proof. reflexivity. Qed.

Example search_one_page :
  getOldOpenIssueNumbers Cases.one_page 5 Sample.fresh
  = Some ([5; 7], {| maintainersCache := None; apiCallCount := 1 |}).
Proof. reflexivity. Qed.

Example five_issues_in_pairs :
  main_batches 6 2 [11; 12; 13; 14; 15]
  = Some ([Analyse [11; 12]; Sleep; Analyse [13; 14]; Sleep; Analyse [15]], 5).
Proof. reflexivity. Qed.

(** A negative limit analyses a truncated first chunk and then loops. *)
Example negative_limit_first_chunk :
  JsMore.slice [11; 12; 13] 0 (0 + -1) = [11; 12]
  /\ main_batches 50 (-1) [11; 12; 13] = None.
Proof. split; reflexivity. Qed.

Example repository_assignee :
  auto_assignment issueAssigneesList prAssigneesList (mkPayload None (Some 42))
  = addAssignees 42 [Some "Varun-S10"].
Proof. reflexivity. Qed.

(** Unknown keys and braces around other text stay; a value is not
    expanded again. *)
Example prompt_formatting :
  formatPrompt Cases.prompt_vars
    "{OWNER}/{REPO}: {what}, {a b}, {}, {OWNER"
  = "acme/{OWNER}-tools: {what}, {a b}, {}, {OWNER".
Proof. reflexivity. Qed.

(** ** The added theorems with hypotheses, at concrete inputs *)

Lemma untouched_issue_role_witness :
  let issueAuthor := Js.nullish (d_author Cases.ghost_issue) "unknown" in
  let st :=
    replayHistoryToFindState (built_history Sample.env Cases.ghost_issue)
      ["bob"] issueAuthor in
  last_action_type st = created
  /\ last_activity_time st = parseISO Sample.env (d_createdAt Cases.ghost_issue)
  /\ last_actor_name st = d_author Cases.ghost_issue
  /\ last_action_role st
     = match d_author Cases.ghost_issue with
       | Some _ => author
       | None => other_user
       end.
Proof.
  apply (untouched_issue_role Sample.env Cases.ghost_issue ["bob"]).
  reflexivity.
Defined.

Lemma maintainers_fetched_once_witness :
  maintainersCache (mkProc (Some ["bob"; "carol"]) 1) = Some ["bob"; "carol"]
  /\ forall w',
       getCachedMaintainers w' (mkProc (Some ["bob"; "carol"]) 1)
       = (Returned ["bob"; "carol"], mkProc (Some ["bob"; "carol"]) 1).
Proof.
  apply (maintainers_fetched_once Sample.online Sample.fresh).
  reflexivity.
Defined.

Lemma posted_alert_suppresses_repeat_witness :
  let state :=
    mkState author 1704240000000 edited_description None (Some "alice") in
  (exists t, built_lastBotAlertTime Sample.env Sample.alice_issue = Some t
             /\ parseISO Sample.env (c_createdAt Sample.bot_alert) <= t)
  /\ (forall e, In e (built_history Sample.env Sample.alice_issue) ->
        ev_data e <> Some alert_comment)
  /\ (last_activity_time state
      < parseISO Sample.env (c_createdAt Sample.bot_alert) ->
      maintainerAlertNeeded state
        (built_lastBotAlertTime Sample.env Sample.alice_issue) = false).
Proof.
  apply (posted_alert_suppresses_repeat Sample.env Sample.alice_issue
           [Some Sample.bob_comment; None; Some Sample.bot_alert]
           Sample.bot_alert).
  - reflexivity.
  - simpl. right. right. left. reflexivity.
  - reflexivity.
Defined.

Lemma search_returns_issues_only_witness :
  exists p data item,
    1 <= p /\ Cases.one_page p = inr data
    /\ In item (Js.nullish (items data) [])
    /\ gi_pull_request item = false /\ gi_number item = 7.
Proof.
  apply (search_returns_issues_only Cases.one_page 5 Sample.fresh [5; 7]
           {| maintainersCache := None; apiCallCount := 1 |}).
  - reflexivity.
  - simpl. right. left. reflexivity.
Defined.

Lemma search_reads_until_short_page_witness :
  getOldOpenIssueNumbers Cases.page_then_failure 2 Sample.fresh
  = Some (flat_map page_numbers [Cases.hundred] ++ [],
          {| maintainersCache := None; apiCallCount := 0 + 1 + 1 |}).
Proof.
  apply (search_reads_until_short_page Cases.page_then_failure
           [Cases.hundred]
           (inl (OtherError "Request failed with status code 422"))
           Sample.fresh 2).
  - intros i found Hi. destruct i as [| i].
    + injection Hi as <-. split; [simpl; lia |]. exists 150. reflexivity.
    + destruct i; discriminate.
  - reflexivity.
  - exact I.
  - simpl. lia.
Defined.

Lemma search_never_ends_on_full_pages_witness :
  getOldOpenIssueNumbers Cases.endless 1000 Sample.fresh = None.
Proof.
  apply (search_never_ends_on_full_pages Cases.endless Sample.fresh).
  intros p Hp. exists (mkSearch 100000 (Some Cases.hundred)).
  split; [reflexivity | simpl; lia].
Defined.

Lemma main_batches_partition_witness :
  exists steps,
    main_batches 6 2 [11; 12; 13; 14; 15] = Some (steps, 5)
    /\ List.concat (chunks_of steps) = [11; 12; 13; 14; 15]
    /\ Forall (fun chunk => 1 <= Z.of_nat (List.length chunk) <= 2)
         (chunks_of steps)
    /\ Forall (fun chunk => Z.of_nat (List.length chunk) = 2)
         (removelast (chunks_of steps)).
Proof.
  apply (main_batches_partition 2 [11; 12; 13; 14; 15] 6).
  - lia.
  - simpl. lia.
Defined.

Lemma main_sleeps_between_chunks_witness :
  exists steps count,
    main_batches 6 2 [11; 12; 13; 14; 15] = Some (steps, count)
    /\ steps = with_sleeps (chunks_of steps)
    /\ sleeps_of steps = pred (List.length (chunks_of steps)).
Proof.
  apply (main_sleeps_between_chunks 2 [11; 12; 13; 14; 15] 6).
  - lia.
  - simpl. lia.
Defined.

Lemma main_never_ends_without_limit_witness :
  main_batches 1000 0 [11] = None.
Proof.
  apply (main_never_ends_without_limit 0 [11]).
  - lia.
  - discriminate.
Defined.

Lemma auto_assignment_rotates_witness :
  exists n,
    4 <= n < 4 + Z.of_nat (List.length ["ann"; "ben"; "cho"])
    /\ auto_assignment ["ann"; "ben"; "cho"] [] (mkPayload (Some n) None)
       = addAssignees n [Some "ben"].
Proof.
  apply (auto_assignment_rotates ["ann"; "ben"; "cho"] [] None "ben" 4).
  - simpl. right. left. reflexivity.
  - lia.
Defined.

Lemma formatPrompt_replaces_placeholder_witness :
  formatPrompt Cases.prompt_vars ("Audit {x} of " ++ "{" ++ "REPO" ++ "}" ++ ".")
  = (formatPrompt Cases.prompt_vars "Audit {x} of "
     ++ replacement Cases.prompt_vars "REPO"
     ++ formatPrompt Cases.prompt_vars ".")%string.
Proof.
  apply (formatPrompt_replaces_placeholder Cases.prompt_vars
           "Audit {x} of " "REPO" ".").
  - discriminate.
  - reflexivity.
Defined.
